(** * The Bitter Lesson demonstration (demo.py): a shallow embedding

    The program computes with Python [int]s (unbounded integers) and Python
    [float]s (IEEE 754 binary64).  Integers are modelled by [Z]; floats by
    the standard library's executable specification of binary floating point,
    [SpecFloat], instantiated at precision 53 and maximal exponent 1024.
    Python exceptions are modelled by a sum type, standard output by the
    string written so far. *)

From Stdlib Require Import ZArith Lia Bool List String Ascii.
From Stdlib Require Import DecimalString SpecFloat.
Import ListNotations.

Local Open Scope Z_scope.

(** ** Binary64 arithmetic *)

Module B64.

Definition prec : Z := 53.
Definition emax : Z := 1024.

Definition float := spec_float.

(** The values of the format: every Python float is one of them. *)
Definition valid (x : float) : bool := valid_binary prec emax x.

Definition mul (x y : float) : float := SFmul prec emax x y.
Definition div (x y : float) : float := SFdiv prec emax x y.
Definition ltb (x y : float) : bool := SFltb x y.
Definition leb (x y : float) : bool := SFleb x y.
Definition eqb (x y : float) : bool := SFeqb x y.

(** Correctly rounded conversion of an integer (round to nearest, ties to
    even); an integer beyond the range of the format gives an infinity. *)
Definition of_Z (z : Z) : float := binary_normalize prec emax z 0 false.

(** The binary64 number nearest to the fraction [a / b]. *)
Definition of_ratio (a b : positive) : float :=
  div (S754_finite false a 0) (S754_finite false b 0).

(** The decimal literal [p / 10^k] of a source text. *)
Definition lit (p : positive) (k : Z) : float :=
  of_ratio p (Z.to_pos (10 ^ k)).

Definition is_finite (x : float) : bool :=
  match x with
  | S754_zero _ | S754_finite _ _ _ => true
  | _ => false
  end.

(** Truncation toward zero of a finite float. *)
Definition trunc (x : float) : Z :=
  match x with
  | S754_finite s m e =>
      let a := if 0 <=? e then Z.pos m * 2 ^ e else Z.pos m / 2 ^ (- e) in
      if s then - a else a
  | _ => 0
  end.

(** The largest integer not above a finite float. *)
Definition floor (x : float) : Z :=
  match x with
  | S754_finite s m e => Z.shiftl (if s then Z.neg m else Z.pos m) e
  | _ => 0
  end.

Definition zero : float := S754_zero false.
Definition one : float := S754_finite false 4503599627370496 (-52).

End B64.

(** ** Python values, exceptions and the operators the program uses *)

Inductive pynum : Type :=
| PyInt (z : Z)
| PyFloat (f : B64.float).

Inductive pyexn : Type :=
| ZeroDivisionError
| OverflowError
| ValueError.

Inductive result (A : Type) : Type :=
| Ok (a : A)
| Raise (e : pyexn).
Arguments Ok {A} a.
Arguments Raise {A} e.

Definition bind {A B : Type} (m : result A) (k : A -> result B) : result B :=
  match m with
  | Ok a => k a
  | Raise e => Raise e
  end.

Notation "x <- m ;; k" := (bind m (fun x => k))
  (at level 61, m at next level, right associativity).

(** Conversion of an [int] operand to [float] in mixed arithmetic: correctly
    rounded, [OverflowError] when the integer is out of the range of the
    format. *)
Definition int_to_float (z : Z) : result B64.float :=
  let f := B64.of_Z z in
  if B64.is_finite f then Ok f else Raise OverflowError.

(** [x * c] with an [int] right operand: exact on integers, a float product
    (which may be infinite, without an exception) on floats. *)
Definition py_mul_int (x : pynum) (c : Z) : result pynum :=
  match x with
  | PyInt a => Ok (PyInt (a * c))
  | PyFloat f =>
      g <- int_to_float c ;;
      Ok (PyFloat (B64.mul f g))
  end.

(** [int(x)] *)
Definition py_int (x : pynum) : result Z :=
  match x with
  | PyInt z => Ok z
  | PyFloat S754_nan => Raise ValueError
  | PyFloat (S754_infinity _) => Raise OverflowError
  | PyFloat f => Ok (B64.trunc f)
  end.

(** [x / y] with a [float] left operand: the right operand is converted
    first, then a zero divisor is refused. *)
Definition py_truediv (x : B64.float) (y : pynum) : result B64.float :=
  b <- match y with
       | PyInt z => int_to_float z
       | PyFloat f => Ok f
       end ;;
  match b with
  | S754_zero _ => Raise ZeroDivisionError
  | _ => Ok (B64.div x b)
  end.

(** [a * b] with an [int] left and a [float] right operand. *)
Definition py_int_mul_float (a : Z) (b : B64.float) : result B64.float :=
  f <- int_to_float a ;;
  Ok (B64.mul f b).

(** [min(a, b)] on floats: the first argument unless the second is smaller. *)
Definition py_min (a b : B64.float) : B64.float :=
  if B64.ltb b a then b else a.

(** ** The two scorers *)

Definition specialized_method (problem_size : pynum) : B64.float :=
  let solution_quality := B64.lit 7 1 in
  solution_quality.

Definition general_method (problem_size computation_time : pynum)
  : result B64.float :=
  let computation_speed := 1000 in
  x <- py_mul_int computation_time computation_speed ;;
  total_steps <- py_int x ;;
  improvement_per_step <- py_truediv (B64.lit 10 1) problem_size ;;
  solution_quality <- py_int_mul_float total_steps improvement_per_step ;;
  let solution_quality := py_min solution_quality (B64.lit 10 1) in
  Ok solution_quality.

(** The values of the local variables [total_steps] and
    [improvement_per_step] on an [int] size and a [float] time. *)
Definition total_steps (t : B64.float) : Z :=
  B64.trunc (B64.mul t (B64.of_Z 1000)).

Definition improvement_per_step (n : Z) : B64.float :=
  B64.div (B64.lit 10 1) (B64.of_Z n).

(** *** The formulas of the specification *)

(** [min(1.0, (t * 1000) * (1.0 / n))]: the formula as the specification
    words it, without truncation of the number of steps. *)
Definition quality_formula (n : Z) (t : B64.float) : result B64.float :=
  steps <- (g <- int_to_float 1000 ;; Ok (B64.mul t g)) ;;
  per_step <- py_truediv (B64.lit 10 1) (PyInt n) ;;
  Ok (py_min (B64.lit 10 1) (B64.mul steps per_step)).

(** [a / b] on two [int]s: the float nearest to the quotient. *)
Definition py_int_truediv (a b : Z) : result B64.float :=
  match b with
  | Z0 => Raise ZeroDivisionError
  | _ =>
      match a with
      | Z0 => Ok (S754_zero (b <? 0))
      | _ =>
          let f := B64.div (S754_finite (a <? 0) (Z.to_pos (Z.abs a)) 0)
                           (S754_finite (b <? 0) (Z.to_pos (Z.abs b)) 0) in
          if B64.is_finite f then Ok f else Raise OverflowError
      end
  end.

(** [math.floor(x)] *)
Definition py_floor (x : B64.float) : result Z :=
  match x with
  | S754_nan => Raise ValueError
  | S754_infinity _ => Raise OverflowError
  | _ => Ok (B64.floor x)
  end.

(** [min(1.0, floor(t * 1000) / n)]: one division of the number of steps by
    the problem size. *)
Definition floor_formula (n : Z) (t : B64.float) : result B64.float :=
  g <- int_to_float 1000 ;;
  steps <- py_floor (B64.mul t g) ;;
  q <- py_int_truediv steps n ;;
  Ok (py_min (B64.lit 10 1) q).

(** ** Text formatting *)

Module Fmt.

Local Open Scope string_scope.
Local Open Scope Z_scope.

Definition str_int (z : Z) : string := NilZero.string_of_int (Z.to_int z).

Fixpoint zeros (n : nat) : string :=
  match n with
  | O => EmptyString
  | S n' => "0" ++ zeros n'
  end.

(** Number of decimal digits of a positive integer. *)
Definition ndigits (z : Z) : Z := Z.of_nat (String.length (str_int z)).

(** Nearest integer to [a / b], ties to even ([0 < b]). *)
Definition div_nearest_even (a b : Z) : Z :=
  let q := a / b in
  let r := a mod b in
  match 2 * r ?= b with
  | Lt => q
  | Gt => q + 1
  | Eq => if Z.even q then q else q + 1
  end.

(** A finite float as the fraction [num / den]. *)
Definition fraction (m : positive) (e : Z) : Z * Z :=
  if 0 <=? e then (Z.pos m * 2 ^ e, 1) else (Z.pos m, 2 ^ (- e)).

(** [format(x, ".2f")]: the exact value rounded to hundredths. *)
Definition fixed2 (x : B64.float) : string :=
  match x with
  | S754_nan => "nan"
  | S754_infinity s => if s then "-inf" else "inf"
  | S754_zero s => if s then "-0.00" else "0.00"
  | S754_finite s m e =>
      let '(num, den) := fraction m e in
      let h := div_nearest_even (100 * num) den in
      let frac := str_int (h mod 100) in
      (if s then "-" else EmptyString) ++ str_int (h / 100) ++ "." ++
      zeros (2 - String.length frac) ++ frac
  end.

(** [floor (log10 (num / den))] for positive [num] and [den]. *)
Definition floor_log10 (num den : Z) : Z :=
  if den <=? num then ndigits (num / den) - 1
  else
    let l := ndigits (den / num) - 1 in
    if (den mod num =? 0) && (den / num =? 10 ^ l) then - l else - (l + 1).

(** The binary64 number nearest to [d * 10^p]. *)
Definition of_decimal (d : positive) (p : Z) : B64.float :=
  if 0 <=? p then B64.of_Z (Z.pos d * 10 ^ p)
  else B64.of_ratio d (Z.to_pos (10 ^ (- p))).

Definition same_float (x y : B64.float) : bool :=
  match x, y with
  | S754_finite s m e, S754_finite s' m' e' =>
      Bool.eqb s s' && Pos.eqb m m' && Z.eqb e e'
  | _, _ => false
  end.

(** The decimal [(d, p)], meaning [d * 10^p], with [k] significant digits
    that is nearest to [num / den] among those that read back as [x]. *)
Definition candidate (x : B64.float) (num den e10 k : Z) : option (Z * Z) :=
  let p := e10 - k + 1 in
  let a := if 0 <=? p then num else num * 10 ^ (- p) in
  let b := if 0 <=? p then den * 10 ^ p else den in
  let lo := a / b in
  let r := a mod b in
  let ok d := same_float (of_decimal (Z.to_pos d) p) x in
  if r =? 0 then Some (lo, p)
  else
    match ok lo, ok (lo + 1) with
    | true, true => Some (div_nearest_even a b, p)
    | true, false => Some (lo, p)
    | false, true => Some (lo + 1, p)
    | false, false => None
    end.

Fixpoint shortest (x : B64.float) (num den e10 : Z) (k : Z) (fuel : nat)
  : option (Z * Z) :=
  match fuel with
  | O => None
  | S fuel' =>
      match candidate x num den e10 k with
      | Some dp => Some dp
      | None => shortest x num den e10 (k + 1) fuel'
      end
  end.

Fixpoint strip_zeros (fuel : nat) (d p : Z) : Z * Z :=
  match fuel with
  | O => (d, p)
  | S fuel' =>
      if (d mod 10 =? 0) && (0 <? d) then strip_zeros fuel' (d / 10) (p + 1)
      else (d, p)
  end.

(** Layout of the digits [ds] with the decimal point after [decpt] of
    them: positional for [-4 < decpt <= 16], else scientific. *)
Definition layout (ds : string) (decpt : Z) : string :=
  let k := Z.of_nat (String.length ds) in
  if (decpt <=? -4) || (16 <? decpt) then
    let e := decpt - 1 in
    let ae := str_int (Z.abs e) in
    substring 0 1 ds ++
    (if 1 <? k then "." ++ substring 1 (String.length ds - 1) ds else EmptyString) ++
    "e" ++ (if e <? 0 then "-" else "+") ++
    zeros (2 - String.length ae) ++ ae
  else if decpt <=? 0 then
    "0." ++ zeros (Z.to_nat (- decpt)) ++ ds
  else if decpt <? k then
    substring 0 (Z.to_nat decpt) ds ++ "." ++
    substring (Z.to_nat decpt) (String.length ds - Z.to_nat decpt) ds
  else
    ds ++ zeros (Z.to_nat (decpt - k)) ++ ".0".

(** [repr(x)], which is also [str(x)] and the default format of an
    f-string field: the shortest decimal that reads back as [x]. *)
Definition repr (x : B64.float) : string :=
  match x with
  | S754_nan => "nan"
  | S754_infinity s => if s then "-inf" else "inf"
  | S754_zero s => if s then "-0.0" else "0.0"
  | S754_finite s m e =>
      let '(num, den) := fraction m e in
      match shortest (S754_finite false m e) num den (floor_log10 num den) 1 17 with
      | Some (d, p) =>
          let '(d, p) := strip_zeros 17 d p in
          let ds := str_int d in
          (if s then "-" else EmptyString) ++
          layout ds (p + Z.of_nat (String.length ds))
      | None => EmptyString
      end
  end.

Definition str (x : pynum) : string :=
  match x with
  | PyInt z => str_int z
  | PyFloat f => repr f
  end.

End Fmt.

(** ** The report *)

Local Open Scope string_scope.

(** A program that writes to standard output: the text written so far is
    threaded through, and kept when an exception ends the run. *)
Definition io (A : Type) : Type := string -> result A * string.

Definition ret {A : Type} (a : A) : io A := fun out => (Ok a, out).

Definition seq {A B : Type} (m : io A) (k : A -> io B) : io B :=
  fun out =>
    match m out with
    | (Ok a, out') => k a out'
    | (Raise e, out') => (Raise e, out')
    end.

Definition lift {A : Type} (r : result A) : io A := fun out => (r, out).

Notation "m >> k" := (seq m (fun _ => k))
  (at level 62, right associativity).
Notation "x <~ m ; k" := (seq m (fun x => k))
  (at level 62, m at next level, right associativity).

Definition nl : string := String (ascii_of_nat 10) EmptyString.

(** [print(s)]: the text and a line feed. *)
Definition print (s : string) : io unit :=
  fun out => (Ok tt, out ++ s ++ nl).

(** [for x in xs: body] *)
Fixpoint for_each {A : Type} (xs : list A) (body : A -> io unit) : io unit :=
  match xs with
  | [] => ret tt
  | x :: xs' => body x >> for_each xs' body
  end.

Definition main : io unit :=
  print ("=== The Bitter Lesson Demonstration ===" ++ nl) >>
  print "This simulation compares two problem-solving approaches:" >>
  print "1. **Specialized Method**: Uses built-in human knowledge. Performance remains constant regardless of computation time." >>
  print ("2. **General Method**: Leverages computation through search and learning. Performance improves with more computation time." ++ nl) >>
  let problem_sizes := [PyInt 5000; PyInt 10000; PyInt 20000] in
  let computation_times :=
    [PyFloat (B64.lit 1 1); PyFloat (B64.lit 5 1);
     PyFloat (B64.lit 10 1); PyFloat (B64.lit 20 1)] in
  print "**Specialized Method Results:**" >>
  for_each problem_sizes (fun size =>
    let quality := specialized_method size in
    print ("Problem Size " ++ Fmt.str size ++ ": Solution Quality = " ++
           Fmt.fixed2 quality)) >>
  print (nl ++ "(Notice that the specialized method's performance remains constant across different problem sizes.)" ++ nl) >>
  print "**General Method Results:**" >>
  for_each problem_sizes (fun size =>
    print (nl ++ "Problem Size " ++ Fmt.str size ++ ":") >>
    for_each computation_times (fun comp_time =>
      quality <~ lift (general_method size comp_time) ;
      print ("  Computation Time " ++ Fmt.str comp_time ++
             "s -> Solution Quality: " ++ Fmt.fixed2 quality)) >>
    print ("(For problem size " ++ Fmt.str size ++
           ", the solution quality improves with more computation time.)")) >>
  print EmptyString >>
  print "=== Conclusion ===" >>
  print "The specialized method achieves a fixed solution quality regardless of computation time or problem size." >>
  print "In contrast, the general method's solution quality improves with increased computation time, especially for larger problem sizes." >>
  print (nl ++ "This demonstrates **'The Bitter Lesson'**:") >>
  print ("General methods that leverage computation ultimately outperform specialized methods that rely on built-in human knowledge." ++ nl) >>
  print "As computational resources continue to grow, focusing on general-purpose algorithms and learning methods becomes increasingly advantageous.".

(** The transcript recorded at the end of demo.py. *)
Definition transcript : string :=
"=== The Bitter Lesson Demonstration ===

This simulation compares two problem-solving approaches:
1. **Specialized Method**: Uses built-in human knowledge. Performance remains constant regardless of computation time.
2. **General Method**: Leverages computation through search and learning. Performance improves with more computation time.

**Specialized Method Results:**
Problem Size 5000: Solution Quality = 0.70
Problem Size 10000: Solution Quality = 0.70
Problem Size 20000: Solution Quality = 0.70

(Notice that the specialized method's performance remains constant across different problem sizes.)

**General Method Results:**

Problem Size 5000:
  Computation Time 0.1s -> Solution Quality: 0.02
  Computation Time 0.5s -> Solution Quality: 0.10
  Computation Time 1.0s -> Solution Quality: 0.20
  Computation Time 2.0s -> Solution Quality: 0.40
(For problem size 5000, the solution quality improves with more computation time.)

Problem Size 10000:
  Computation Time 0.1s -> Solution Quality: 0.01
  Computation Time 0.5s -> Solution Quality: 0.05
  Computation Time 1.0s -> Solution Quality: 0.10
  Computation Time 2.0s -> Solution Quality: 0.20
(For problem size 10000, the solution quality improves with more computation time.)

Problem Size 20000:
  Computation Time 0.1s -> Solution Quality: 0.01
  Computation Time 0.5s -> Solution Quality: 0.03
  Computation Time 1.0s -> Solution Quality: 0.05
  Computation Time 2.0s -> Solution Quality: 0.10
(For problem size 20000, the solution quality improves with more computation time.)

=== Conclusion ===
The specialized method achieves a fixed solution quality regardless of computation time or problem size.
In contrast, the general method's solution quality improves with increased computation time, especially for larger problem sizes.

This demonstrates **'The Bitter Lesson'**:
General methods that leverage computation ultimately outperform specialized methods that rely on built-in human knowledge.

As computational resources continue to grow, focusing on general-purpose algorithms and learning methods becomes increasingly advantageous.
".

Local Open Scope Z_scope.

(** ** Rounding, in closed form

    The functions below describe what [binary_round_aux] computes on a
    positive mantissa: the mantissa is divided by a power of two and rounded
    to the nearest integer, ties to even ([Fmt.div_nearest_even]); [pack]
    then renormalises a mantissa that reached [2^53] and detects overflow. *)

Module Round.

Definition emin : Z := -1074.

(** Exponent of the format for a number of magnitude [2^(mu-1) .. 2^mu]. *)
Definition fexp (mu : Z) : Z := Z.max (mu - 53) emin.

Definition digits (m : positive) : Z := Z.pos (digits2_pos m).

Definition rne (m n : Z) : Z := Fmt.div_nearest_even m (2 ^ n).

Definition pack (s : bool) (M E : Z) : B64.float :=
  if M =? 0 then S754_zero s
  else if M =? 2 ^ 53 then
    if E + 1 <=? 971 then S754_finite s (Z.to_pos (2 ^ 52)) (E + 1)
    else S754_infinity s
  else
    if E <=? 971 then S754_finite s (Z.to_pos M) E else S754_infinity s.

(** A rounded mantissa and its exponent. *)
Definition good (M E : Z) : Prop :=
  0 <= M <= 2 ^ 53 /\ emin <= E /\ (emin < E -> 2 ^ 52 <= M).

(** [(m, e)] denotes at most [(m', e')], for [e <= e']. *)
Definition dyle (m e m' e' : Z) : Prop :=
  e <= e' /\ m <= m' * 2 ^ (e' - e).

(** Dividing [1.0] by a float of exponent [ey] with a full mantissa [my]:
    the quotient of [2^(52 + recip_shift ey)] by [my] is rounded at the
    exponent [recip_exp ey]. *)
Definition recip_shift (ey : Z) : Z := Z.min 53 (1022 - ey).
Definition recip_exp (ey : Z) : Z := Z.max (- 105 - ey) emin.
Definition recip_mant (my ey : Z) : Z :=
  Fmt.div_nearest_even (2 ^ (52 + recip_shift ey)) my.

(** Zeros of either sign, positive finite numbers, the positive
    infinity: what [0.0 <= x] accepts. *)
Definition nonneg (x : B64.float) : bool := B64.leb B64.zero x.

(** The mantissa of a finite number has all its 53 bits. *)
Definition full (x : B64.float) : Prop :=
  match x with
  | S754_finite _ m _ => digits m = 53
  | _ => True
  end.

(** [1000.0], the computation speed as a float. *)
Definition c1000 : B64.float := S754_finite false 8796093022208000 (-43).

(** What [general_method] returns when nothing is raised. *)
Definition quality (n : Z) (t : B64.float) : B64.float :=
  py_min
    (B64.mul (B64.of_Z (B64.trunc (B64.mul t c1000)))
             (B64.div B64.one (B64.of_Z n)))
    B64.one.

End Round.

(** ** Limits of the inputs *)

Module Edge.

(** The first integer that does not convert to a float. *)
Definition size_limit : Z := 2 ^ 1024 - 2 ^ 970.

(** 1.7976931348623156e+305, the largest time whose product with 1000.0 is
    finite. *)
Definition time_limit : B64.float := S754_finite false 4611686018427387 962.

(** 1.7976931348623157e+308, the largest float. *)
Definition max_float : B64.float := S754_finite false 9007199254740991 971.

(** Zeros of either sign, negative finite numbers, the negative infinity:
    what [x <= 0.0] accepts. *)
Definition nonpos (x : B64.float) : bool := B64.leb x B64.zero.

End Edge.

(** * Lemmas *)

(** ** Nearest-even division *)

Section DivNearest.

Import Fmt.

Lemma dne_bounds a b : 0 < b -> a / b <= div_nearest_even a b <= a / b + 1.
Proof.
  intros Hb. unfold div_nearest_even.
  destruct (2 * (a mod b) ?= b); [destruct (Z.even (a / b))| |]; lia.
Qed.

Lemma dne_exact q b : 0 < b -> div_nearest_even (q * b) b = q.
Proof.
  intros Hb. unfold div_nearest_even.
  rewrite Z.mod_mul, Z.div_mul by lia.
  change (2 * 0) with 0. destruct (Z.compare_spec 0 b); lia.
Qed.

Lemma dne_mono a a' b : 0 < b -> a <= a' ->
  div_nearest_even a b <= div_nearest_even a' b.
Proof.
  intros Hb Ha.
  pose proof (Z.div_le_mono a a' b Hb Ha) as Hq.
  destruct (Z.eq_dec (a / b) (a' / b)) as [E|N].
  - assert (Hr : a mod b <= a' mod b).
    { pose proof (Z.div_mod a b). pose proof (Z.div_mod a' b). nia. }
    unfold div_nearest_even. rewrite <- E.
    destruct (Z.compare_spec (2 * (a mod b)) b);
      destruct (Z.compare_spec (2 * (a' mod b)) b);
      destruct (Z.even (a / b)); lia.
  - pose proof (dne_bounds a b Hb). pose proof (dne_bounds a' b Hb). lia.
Qed.

Lemma dne_scale a b c : 0 < b -> 0 < c ->
  div_nearest_even (a * c) (b * c) = div_nearest_even a b.
Proof.
  intros Hb Hc. unfold div_nearest_even.
  rewrite Z.div_mul_cancel_r by lia.
  rewrite Z.mul_mod_distr_r by lia.
  replace (2 * (a mod b * c) ?= b * c) with (2 * (a mod b) ?= b); auto.
  destruct (Z.compare_spec (2 * (a mod b)) b);
    destruct (Z.compare_spec (2 * (a mod b * c)) (b * c)); auto; nia.
Qed.

(** Dividing by more gives less. *)
Lemma dne_anti a b b' : 0 <= a -> 0 < b -> b <= b' ->
  div_nearest_even a b' <= div_nearest_even a b.
Proof.
  intros Ha Hb Hbb.
  assert (Hq : a / b' <= a / b) by (apply Z.div_le_compat_l; lia).
  destruct (Z.eq_dec (a / b') (a / b)) as [E|N].
  - pose proof (Z.div_mod a b ltac:(lia)) as D.
    pose proof (Z.div_mod a b' ltac:(lia)) as D'.
    pose proof (Z.mod_pos_bound a b ltac:(lia)).
    pose proof (Z.mod_pos_bound a b' ltac:(lia)).
    assert (0 <= a / b) by (apply Z.div_pos; lia).
    assert (Hr : a mod b' <= a mod b) by nia.
    unfold div_nearest_even. rewrite E.
    destruct (Z.compare_spec (2 * (a mod b)) b);
      destruct (Z.compare_spec (2 * (a mod b')) b');
      destruct (Z.even (a / b)); lia.
  - pose proof (dne_bounds a b Hb). pose proof (dne_bounds a b' ltac:(lia)).
    lia.
Qed.

End DivNearest.

(** ** Binary digits and shifts *)

Section Shifts.

Import Round.

Lemma digits2_size m : digits2_pos m = Pos.size m.
Proof. induction m; simpl; congruence. Qed.

Lemma digits_log2 m : digits m = Z.log2 (Z.pos m) + 1.
Proof.
  unfold digits. rewrite digits2_size.
  destruct m; simpl; try rewrite Pos2Z.inj_succ; lia.
Qed.

Lemma digits_bounds m : 2 ^ (digits m - 1) <= Z.pos m < 2 ^ digits m.
Proof.
  rewrite digits_log2.
  pose proof (Z.log2_spec (Z.pos m) ltac:(lia)).
  replace (Z.log2 (Z.pos m) + 1 - 1) with (Z.log2 (Z.pos m)) by lia.
  replace (Z.log2 (Z.pos m) + 1) with (Z.succ (Z.log2 (Z.pos m))) by lia.
  assumption.
Qed.

Lemma digits_pos m : 1 <= digits m.
Proof. unfold digits. lia. Qed.

(** The number of digits is determined by the enclosing powers of two. *)
Lemma digits_unique m d : 2 ^ (d - 1) <= Z.pos m < 2 ^ d -> digits m = d.
Proof.
  intros [L U]. pose proof (digits_bounds m) as [L' U'].
  pose proof (digits_pos m).
  assert (0 < d).
  { destruct (Z.lt_trichotomy d 0) as [N|[N|N]]; auto.
    - rewrite Z.pow_neg_r in U by lia. lia.
    - subst d. simpl in U. lia. }
  destruct (Z.lt_trichotomy (digits m) d) as [N|[N|N]]; auto.
  - assert (2 ^ digits m <= 2 ^ (d - 1)) by (apply Z.pow_le_mono_r; lia). lia.
  - assert (2 ^ d <= 2 ^ (digits m - 1)) by (apply Z.pow_le_mono_r; lia). lia.
Qed.

Lemma iter_xO m d : Z.pos (Pos.iter xO m d) = Z.pos m * 2 ^ Z.pos d.
Proof.
  revert m. induction d using Pos.peano_ind; intros m.
  - simpl. lia.
  - rewrite Pos.iter_succ, Pos2Z.inj_succ, Z.pow_succ_r by lia.
    rewrite Pos2Z.inj_xO, IHd. lia.
Qed.

Lemma iter_pos_comm {A} (f : A -> A) p x :
  iter_pos f p (f x) = f (iter_pos f p x).
Proof.
  revert x. induction p; intros x; simpl; auto.
  - now rewrite !IHp.
  - now rewrite !IHp.
Qed.

Lemma iter_pos_succ {A} (f : A -> A) p x :
  iter_pos f (Pos.succ p) x = f (iter_pos f p x).
Proof.
  revert x. induction p; intros x; simpl; auto.
  - rewrite !IHp. now rewrite <- !iter_pos_comm.
  - now rewrite !iter_pos_comm.
Qed.

Lemma pow2_pred p : 2 ^ Z.pos p = 2 ^ (Z.pos p - 1) * 2.
Proof.
  rewrite Z.mul_comm, <- Z.pow_succ_r by lia. f_equal. lia.
Qed.

Lemma shr_1_nonneg m r s : 0 <= m ->
  shr_1 (Build_shr_record m r s)
  = Build_shr_record (m / 2) (Z.odd m) (r || s).
Proof.
  intros Hm. rewrite <- Z.div2_div.
  destruct m as [|[p|p|]|]; try reflexivity. lia.
Qed.

(** Shifting an exact mantissa right by [p] bits: the quotient, the bit
    that fell off last, and whether anything fell off before it. *)
Lemma shr_exact m p : 0 <= m ->
  iter_pos shr_1 p (Build_shr_record m false false)
  = Build_shr_record (m / 2 ^ Z.pos p)
      (Z.odd (m / 2 ^ (Z.pos p - 1)))
      (negb (m mod 2 ^ (Z.pos p - 1) =? 0)).
Proof.
  intros Hm. induction p using Pos.peano_ind.
  - cbn [iter_pos]. rewrite shr_1_nonneg by assumption.
    change (Z.pos 1 - 1) with 0. rewrite Z.pow_0_r, Z.div_1_r, Z.mod_1_r.
    reflexivity.
  - rewrite iter_pos_succ, IHp.
    assert (P : 0 < 2 ^ (Z.pos p - 1)) by (apply Z.pow_pos_nonneg; lia).
    rewrite shr_1_nonneg by (apply Z.div_pos; [lia | apply Z.pow_pos_nonneg; lia]).
    rewrite Pos2Z.inj_succ.
    replace (Z.succ (Z.pos p) - 1) with (Z.pos p) by lia.
    rewrite Z.pow_succ_r by lia.
    rewrite (Z.mul_comm 2 (2 ^ Z.pos p)).
    rewrite <- Z.div_div by (try apply Z.pow_pos_nonneg; lia).
    f_equal.
    replace (2 ^ Z.pos p) with (2 ^ (Z.pos p - 1) * 2).
    2:{ symmetry. apply pow2_pred. }
    rewrite Z.rem_mul_r by lia.
    set (q := m / 2 ^ (Z.pos p - 1)).
    set (r := m mod 2 ^ (Z.pos p - 1)).
    pose proof (Z.mod_pos_bound m (2 ^ (Z.pos p - 1)) P) as Hr. fold r in Hr.
    rewrite (Zmod_odd q).
    destruct (Z.odd q);
      [destruct (Z.eqb_spec (r + 2 ^ (Z.pos p - 1) * 1) 0)
      |destruct (Z.eqb_spec (r + 2 ^ (Z.pos p - 1) * 0) 0)];
      destruct (Z.eqb_spec r 0); try reflexivity; lia.
Qed.

(** Rounding after such a shift is nearest-even division. *)
Lemma shr_exact_round m p : 0 <= m ->
  let mrs := iter_pos shr_1 p (Build_shr_record m false false) in
  round_nearest_even (shr_m mrs) (loc_of_shr_record mrs) = rne m (Z.pos p).
Proof.
  intros Hm. cbv zeta. rewrite shr_exact by assumption.
  assert (P : 0 < 2 ^ (Z.pos p - 1)) by (apply Z.pow_pos_nonneg; lia).
  unfold rne, Fmt.div_nearest_even.
  replace (2 ^ Z.pos p) with (2 ^ (Z.pos p - 1) * 2).
  2:{ symmetry. apply pow2_pred. }
  rewrite Z.rem_mul_r by lia.
  set (q := m / 2 ^ (Z.pos p - 1)).
  set (r := m mod 2 ^ (Z.pos p - 1)).
  pose proof (Z.mod_pos_bound m (2 ^ (Z.pos p - 1)) P) as Hr. fold r in Hr.
  rewrite (Zmod_odd q).
  unfold shr_m, loc_of_shr_record, round_nearest_even.
  destruct (Z.odd q); destruct (Z.eqb_spec r 0); cbn [negb orb].
  - replace (2 * (r + 2 ^ (Z.pos p - 1) * 1) ?= 2 ^ (Z.pos p - 1) * 2) with Eq.
    + reflexivity.
    + symmetry. apply Z.compare_eq_iff. lia.
  - replace (2 * (r + 2 ^ (Z.pos p - 1) * 1) ?= 2 ^ (Z.pos p - 1) * 2) with Gt.
    + reflexivity.
    + symmetry. apply Z.compare_gt_iff. lia.
  - replace (2 * (r + 2 ^ (Z.pos p - 1) * 0) ?= 2 ^ (Z.pos p - 1) * 2) with Lt.
    + reflexivity.
    + symmetry. apply Z.compare_lt_iff. lia.
  - replace (2 * (r + 2 ^ (Z.pos p - 1) * 0) ?= 2 ^ (Z.pos p - 1) * 2) with Lt.
    + reflexivity.
    + symmetry. apply Z.compare_lt_iff. lia.
Qed.

End Shifts.

(** ** [binary_round_aux] in closed form *)

Section RoundAux.

Import Round.

Lemma fexp_eq mu : SpecFloat.fexp B64.prec B64.emax mu = fexp mu.
Proof. reflexivity. Qed.

Lemma fexp_mono a b : a <= b -> fexp a <= fexp b.
Proof. unfold fexp. lia. Qed.

Lemma Zdigits2_pos m : Zdigits2 (Z.pos m) = digits m.
Proof. reflexivity. Qed.

Lemma rne_0 m : rne m 0 = m.
Proof.
  unfold rne. rewrite Z.pow_0_r.
  rewrite <- (Z.mul_1_r m) at 1. apply dne_exact. lia.
Qed.

Lemma loc_of_record_of_loc m l :
  loc_of_shr_record (shr_record_of_loc m l) = l.
Proof. destruct l as [|[| |]]; reflexivity. Qed.

Lemma shr_m_record_of_loc m l : shr_m (shr_record_of_loc m l) = m.
Proof. destruct l as [|[| |]]; reflexivity. Qed.

(** The second half of [binary_round_aux]: renormalisation and the
    overflow test. *)
Lemma bra_finish s M E : good M E ->
  (let '(mrs, e) := shr_fexp B64.prec B64.emax M E loc_Exact in
   match shr_m mrs with
   | Z0 => S754_zero s
   | Zpos m =>
       if e <=? B64.emax - B64.prec then S754_finite s m e
       else S754_infinity s
   | Zneg _ => S754_nan
   end) = pack s M E.
Proof.
  intros [[M0 M53] [HE Hn]].
  unfold shr_fexp. rewrite fexp_eq. unfold pack.
  change (B64.emax - B64.prec) with 971.
  destruct M as [|q|q]; [| |lia].
  - (* zero *)
    cbn [Zdigits2 shr_record_of_loc]. unfold shr.
    assert (H : fexp (0 + E) - E <= 0) by (unfold fexp; lia).
    destruct (fexp (0 + E) - E) eqn:D; try lia; reflexivity.
  - rewrite Zdigits2_pos.
    change (Z.pos q =? 0) with false. cbv iota.
    destruct (Z.eqb_spec (Z.pos q) (2 ^ 53)) as [Q|Q].
    + (* the mantissa reached 2^53 *)
      assert (D : digits q = 54).
      { apply digits_unique. rewrite Q. change (54 - 1) with 53.
        split; [lia|]. apply Z.pow_lt_mono_r; lia. }
      rewrite D.
      replace (fexp (54 + E) - E) with 1 by (unfold fexp; lia).
      unfold shr. cbn [shr_record_of_loc].
      rewrite shr_exact by lia. cbn [shr_m].
      rewrite Q. change (2 ^ 53 / 2 ^ 1) with (Z.pos (Z.to_pos (2 ^ 52))).
      cbv iota. reflexivity.
    + assert (D : digits q <= 53).
      { pose proof (digits_bounds q) as [L _].
        destruct (Z_le_gt_dec (digits q) 53); auto.
        assert (2 ^ 53 <= 2 ^ (digits q - 1)) by (apply Z.pow_le_mono_r; lia).
        lia. }
      assert (H : fexp (digits q + E) - E <= 0) by (unfold fexp; lia).
      unfold shr. cbn [shr_record_of_loc].
      destruct (fexp (digits q + E) - E) eqn:D'; try lia; reflexivity.
Qed.

(** Rounded mantissas are in range. *)
Lemma rne_good m e :
  e <= fexp (digits m + e) ->
  good (rne (Z.pos m) (fexp (digits m + e) - e)) (fexp (digits m + e)).
Proof.
  intros He. set (E := fexp (digits m + e)) in *. set (n := E - e).
  assert (Hn : 0 <= n) by (unfold n; lia).
  assert (P : 0 < 2 ^ n) by (apply Z.pow_pos_nonneg; lia).
  pose proof (digits_bounds m) as [L U]. pose proof (digits_pos m) as D1.
  pose proof (dne_bounds (Z.pos m) (2 ^ n) P) as [B1 B2]. fold (rne (Z.pos m) n) in B1, B2.
  assert (HE : emin <= E) by (unfold E, fexp; lia).
  repeat split; auto.
  - assert (0 <= Z.pos m / 2 ^ n) by (apply Z.div_pos; lia). lia.
  - assert (digits m <= 53 + n) by (unfold n, E, fexp; lia).
    assert (2 ^ digits m <= 2 ^ (53 + n)) by (apply Z.pow_le_mono_r; lia).
    rewrite Z.pow_add_r in H0 by lia.
    assert (Z.pos m / 2 ^ n < 2 ^ 53) by (apply Z.div_lt_upper_bound; lia).
    lia.
  - intros G. assert (digits m - 1 = 52 + n) by (unfold n, E, fexp in *; lia).
    rewrite H in L. rewrite Z.pow_add_r in L by lia.
    assert (2 ^ 52 <= Z.pos m / 2 ^ n) by (apply Z.div_le_lower_bound; lia).
    lia.
Qed.

(** Rounding an exact positive mantissa. *)
Lemma bra_exact s m e :
  e <= fexp (digits m + e) ->
  binary_round_aux B64.prec B64.emax s (Z.pos m) e loc_Exact
  = pack s (rne (Z.pos m) (fexp (digits m + e) - e)) (fexp (digits m + e)).
Proof.
  intros He. pose proof (rne_good m e He) as G.
  unfold binary_round_aux.
  unfold shr_fexp at 1. rewrite fexp_eq, Zdigits2_pos.
  set (E := fexp (digits m + e)) in *.
  unfold shr. cbn [shr_record_of_loc].
  destruct (E - e) eqn:D; try lia.
  - rewrite rne_0 in G. cbn [shr_m loc_of_shr_record round_nearest_even].
    replace e with E by lia. rewrite rne_0. apply bra_finish. exact G.
  - rewrite shr_exact_round by lia.
    replace (e + Z.pos p) with E by lia. apply bra_finish. exact G.
Qed.

(** Rounding a mantissa that is already on the grid of the format, given
    with the position of the exact value above it. *)
Lemma bra_noshift s m e l :
  fexp (digits m + e) = e ->
  binary_round_aux B64.prec B64.emax s (Z.pos m) e l
  = pack s (round_nearest_even (Z.pos m) l) e.
Proof.
  intros He.
  unfold binary_round_aux.
  unfold shr_fexp at 1. rewrite fexp_eq, Zdigits2_pos, He, Z.sub_diag.
  unfold shr. rewrite loc_of_record_of_loc, shr_m_record_of_loc.
  apply bra_finish.
  pose proof (digits_bounds m) as [L U]. pose proof (digits_pos m) as D1.
  assert (Hd : digits m <= 53) by (unfold fexp in He; lia).
  assert (2 ^ digits m <= 2 ^ 53) by (apply Z.pow_le_mono_r; lia).
  assert (B : Z.pos m <= round_nearest_even (Z.pos m) l <= Z.pos m + 1).
  { destruct l as [|[| |]]; cbn [round_nearest_even];
      try destruct (Z.even (Z.pos m)); lia. }
  repeat split; try lia.
  - unfold fexp in He. lia.
  - intros G. assert (digits m - 1 = 52) by (unfold fexp in He; lia).
    rewrite H0 in L. lia.
Qed.

End RoundAux.

(** ** Order and validity of packed results *)

Section Pack.

Import Round.

Lemma leb_finite m e m' e' :
  B64.leb (S754_finite false m e) (S754_finite false m' e') = true
  <-> e < e' \/ (e = e' /\ Z.pos m <= Z.pos m').
Proof.
  unfold B64.leb, SFleb, SFcompare.
  change (Pos.compare_cont Eq m m') with (Pos.compare m m').
  destruct (Z.compare_spec e e'); [destruct (Pos.compare_spec m m')| |];
    split; intros; try reflexivity; try discriminate; lia.
Qed.

Lemma ltb_finite m e m' e' :
  B64.ltb (S754_finite false m e) (S754_finite false m' e') = true
  <-> e < e' \/ (e = e' /\ Z.pos m < Z.pos m').
Proof.
  unfold B64.ltb, SFltb, SFcompare.
  change (Pos.compare_cont Eq m m') with (Pos.compare m m').
  destruct (Z.compare_spec e e'); [destruct (Pos.compare_spec m m')| |];
    split; intros; try reflexivity; try discriminate; lia.
Qed.

Lemma valid_finite s m e :
  B64.valid (S754_finite s m e) = true
  <-> fexp (digits m + e) = e /\ e <= 971.
Proof.
  unfold B64.valid, valid_binary, bounded, canonical_mantissa.
  rewrite fexp_eq. change (B64.emax - B64.prec) with 971.
  fold (digits m).
  rewrite andb_true_iff, Z.eqb_eq, Z.leb_le. tauto.
Qed.

Lemma valid_bounds s m e :
  B64.valid (S754_finite s m e) = true ->
  emin <= e <= 971 /\ Z.pos m < 2 ^ 53 /\ (emin < e -> 2 ^ 52 <= Z.pos m).
Proof.
  rewrite valid_finite. intros [C B].
  pose proof (digits_bounds m) as [L U]. pose proof (digits_pos m).
  assert (Hd : digits m <= 53) by (unfold fexp in C; lia).
  assert (2 ^ digits m <= 2 ^ 53) by (apply Z.pow_le_mono_r; lia).
  repeat split; try lia.
  - unfold fexp in C; lia.
  - intros G. assert (E : digits m - 1 = 52) by (unfold fexp in C; lia).
    rewrite E in L. exact L.
Qed.

Lemma good_valid s M E : good M E -> 0 < M < 2 ^ 53 -> E <= 971 ->
  B64.valid (S754_finite s (Z.to_pos M) E) = true.
Proof.
  intros [_ [HE Hn]] HM B. apply valid_finite. split; auto.
  pose proof (digits_bounds (Z.to_pos M)) as [L U].
  pose proof (digits_pos (Z.to_pos M)).
  rewrite Z2Pos.id in L, U by lia.
  assert (digits (Z.to_pos M) <= 53).
  { destruct (Z_le_gt_dec (digits (Z.to_pos M)) 53); auto.
    assert (2 ^ 53 <= 2 ^ (digits (Z.to_pos M) - 1))
      by (apply Z.pow_le_mono_r; lia). lia. }
  destruct (Z.eq_dec E emin) as [->|N].
  - unfold fexp. lia.
  - assert (53 <= digits (Z.to_pos M)).
    { destruct (Z_le_gt_dec 53 (digits (Z.to_pos M))); auto.
      assert (2 ^ digits (Z.to_pos M) <= 2 ^ 52)
        by (apply Z.pow_le_mono_r; lia). lia. }
    unfold fexp. lia.
Qed.

Lemma pack_valid s M E : good M E -> B64.valid (pack s M E) = true.
Proof.
  intros G. pose proof G as [[M0 M53] [HE Hn]]. unfold pack.
  destruct (Z.eqb_spec M 0); [reflexivity|].
  destruct (Z.eqb_spec M (2 ^ 53)).
  - destruct (Z.leb_spec (E + 1) 971); [|reflexivity].
    apply valid_finite. split; [|lia].
    change (digits (Z.to_pos (2 ^ 52))) with 53. unfold fexp. lia.
  - destruct (Z.leb_spec E 971); [|reflexivity].
    apply good_valid; auto; lia.
Qed.

(** A packed result is a zero, a positive finite number or the positive
    infinity. *)
Lemma pack_cases M E : good M E ->
  (pack false M E = S754_zero false /\ M = 0)
  \/ (exists m e, pack false M E = S754_finite false m e)
  \/ pack false M E = S754_infinity false.
Proof.
  intros _. unfold pack.
  destruct (Z.eqb_spec M 0); [left; auto|right].
  destruct (M =? 2 ^ 53);
    [destruct (E + 1 <=? 971)|destruct (E <=? 971)]; eauto.
Qed.

Lemma pack_le M E M' E' : good M E -> good M' E' ->
  E < E' \/ (E = E' /\ M <= M') ->
  B64.leb (pack false M E) (pack false M' E') = true.
Proof.
  intros [[M0 M53] [HE Hn]] [[M0' M53'] [HE' Hn']] H.
  unfold pack.
  destruct (Z.eqb_spec M 0); destruct (Z.eqb_spec M' 0);
    destruct (Z.eqb_spec M (2 ^ 53)); destruct (Z.eqb_spec M' (2 ^ 53));
    destruct (Z.leb_spec (E + 1) 971); destruct (Z.leb_spec E 971);
    destruct (Z.leb_spec (E' + 1) 971); destruct (Z.leb_spec E' 971);
    try reflexivity; try lia;
    try (apply leb_finite; change (Z.pos (Z.to_pos (2 ^ 52))) with (2 ^ 52);
         rewrite ?Z2Pos.id by lia; lia).
Qed.

End Pack.

(** ** Rounding is monotone *)

Section RoundMono.

Import Round.

Lemma dyle_digits m e m' e' :
  dyle (Z.pos m) e (Z.pos m') e' -> digits m + e <= digits m' + e'.
Proof.
  intros [He Hm].
  pose proof (digits_bounds m) as [L _].
  pose proof (digits_bounds m') as [_ U'].
  pose proof (digits_pos m). pose proof (digits_pos m').
  assert (P : 0 < 2 ^ (e' - e)) by (apply Z.pow_pos_nonneg; lia).
  assert (H1 : 2 ^ (digits m - 1) < 2 ^ (digits m' + (e' - e))).
  { rewrite Z.pow_add_r by lia. nia. }
  apply Z.pow_lt_mono_r_iff in H1; lia.
Qed.

Lemma round_mono m e m' e' :
  dyle (Z.pos m) e (Z.pos m') e' ->
  e <= fexp (digits m + e) -> e' <= fexp (digits m' + e') ->
  fexp (digits m + e) < fexp (digits m' + e')
  \/ (fexp (digits m + e) = fexp (digits m' + e')
      /\ rne (Z.pos m) (fexp (digits m + e) - e)
         <= rne (Z.pos m') (fexp (digits m' + e') - e')).
Proof.
  intros D P P'. pose proof (dyle_digits _ _ _ _ D) as Hd.
  apply fexp_mono in Hd. destruct D as [He Hm].
  destruct (Z.eq_dec (fexp (digits m + e)) (fexp (digits m' + e'))) as [Q|Q];
    [right; split; auto|left; lia].
  rewrite <- Q. set (E := fexp (digits m + e)) in *.
  unfold rne.
  replace (2 ^ (E - e)) with (2 ^ (E - e') * 2 ^ (e' - e)).
  2:{ rewrite <- Z.pow_add_r by lia. f_equal. lia. }
  rewrite <- (dne_scale (Z.pos m') (2 ^ (E - e')) (2 ^ (e' - e)))
    by (apply Z.pow_pos_nonneg; lia).
  apply dne_mono; [|assumption].
  apply Z.mul_pos_pos; apply Z.pow_pos_nonneg; lia.
Qed.

Lemma bra_mono m e m' e' :
  dyle (Z.pos m) e (Z.pos m') e' ->
  e <= fexp (digits m + e) -> e' <= fexp (digits m' + e') ->
  B64.leb (binary_round_aux B64.prec B64.emax false (Z.pos m) e loc_Exact)
          (binary_round_aux B64.prec B64.emax false (Z.pos m') e' loc_Exact)
  = true.
Proof.
  intros D P P'. rewrite !bra_exact by assumption.
  apply pack_le; try (apply rne_good; assumption).
  apply round_mono; assumption.
Qed.

(** Valid positive floats compare as the numbers they denote. *)
Lemma leb_dyle m e m' e' :
  B64.valid (S754_finite false m e) = true ->
  B64.valid (S754_finite false m' e') = true ->
  B64.leb (S754_finite false m e) (S754_finite false m' e') = true ->
  dyle (Z.pos m) e (Z.pos m') e'.
Proof.
  intros V V' L. apply valid_bounds in V, V'. apply leb_finite in L.
  destruct L as [L|[-> L]]; split; try lia.
  - assert (2 ^ 1 <= 2 ^ (e' - e)) by (apply Z.pow_le_mono_r; lia).
    change (2 ^ 1) with 2 in H. nia.
  - rewrite Z.sub_diag. lia.
Qed.

Lemma digits_mul m m' : digits m + digits m' - 1 <= digits (m * m').
Proof.
  pose proof (digits_bounds m) as [L _].
  pose proof (digits_bounds m') as [L' _].
  pose proof (digits_bounds (m * m')) as [_ U].
  pose proof (digits_pos m). pose proof (digits_pos m').
  pose proof (digits_pos (m * m')).
  rewrite Pos2Z.inj_mul in U.
  assert (P : 0 < 2 ^ (digits m - 1)) by (apply Z.pow_pos_nonneg; lia).
  assert (P' : 0 < 2 ^ (digits m' - 1)) by (apply Z.pow_pos_nonneg; lia).
  assert (H2 : 2 ^ (digits m - 1 + (digits m' - 1)) < 2 ^ digits (m * m')).
  { rewrite Z.pow_add_r by lia. nia. }
  apply Z.pow_lt_mono_r_iff in H2; lia.
Qed.

(** A product needs no left shift before rounding as soon as one factor
    has a full mantissa. *)
Lemma mul_pre m e m' e' :
  digits m = 53 \/ digits m' = 53 ->
  e + e' <= fexp (digits (m * m') + (e + e')).
Proof.
  intros H. pose proof (digits_mul m m').
  pose proof (digits_pos m). pose proof (digits_pos m').
  unfold fexp. lia.
Qed.

End RoundMono.

(** ** Multiplication and truncation are monotone *)

Section MulTrunc.

Import Round.

Lemma nonneg_cases x : nonneg x = true ->
  (exists s, x = S754_zero s)
  \/ (exists m e, x = S754_finite false m e)
  \/ x = S754_infinity false.
Proof.
  destruct x as [s|[|]| |[|] m e]; try discriminate; eauto.
Qed.

Lemma leb_nonneg x x' : nonneg x = true -> B64.leb x x' = true ->
  nonneg x' = true.
Proof.
  destruct x as [s|[|]| |[|] m e]; try discriminate;
    destruct x' as [s'|[|]| |[|] m' e']; try discriminate; reflexivity.
Qed.

Lemma mul_finite m e m' e' :
  B64.mul (S754_finite false m e) (S754_finite false m' e')
  = binary_round_aux B64.prec B64.emax false (Z.pos (m * m')) (e + e')
      loc_Exact.
Proof. reflexivity. Qed.

Lemma mul_comm x y : B64.mul x y = B64.mul y x.
Proof.
  destruct x as [s|s| |s m e]; destruct y as [s'|s'| |s' m' e'];
    unfold B64.mul, SFmul; rewrite ?(xorb_comm s s'); try reflexivity.
  now rewrite Pos.mul_comm, Z.add_comm.
Qed.

Lemma pack_nonneg M E : good M E -> nonneg (pack false M E) = true.
Proof.
  intros G. destruct (pack_cases M E G) as [[-> _]|[(m & e & ->)| ->]];
    reflexivity.
Qed.

Lemma pack_le_inf M E : good M E ->
  B64.leb (pack false M E) (S754_infinity false) = true.
Proof.
  intros G. destruct (pack_cases M E G) as [[-> _]|[(m & e & ->)| ->]];
    reflexivity.
Qed.

(** The product of a non-negative float and a positive finite one. *)
Lemma mul_nonneg x mc ec :
  nonneg x = true ->
  digits mc = 53 \/ full x ->
  nonneg (B64.mul x (S754_finite false mc ec)) = true
  /\ B64.valid (B64.mul x (S754_finite false mc ec)) = true.
Proof.
  intros N F.
  destruct (nonneg_cases x N) as [[s ->]|[(m & e & ->)| ->]].
  - destruct s; split; reflexivity.
  - rewrite mul_finite, bra_exact by (apply mul_pre; cbn [full] in F; tauto).
    split; [apply pack_nonneg|apply pack_valid]; apply rne_good;
      apply mul_pre; cbn [full] in F; tauto.
  - split; reflexivity.
Qed.

Lemma mul_mono_l x x' mc ec :
  nonneg x = true -> B64.leb x x' = true ->
  B64.valid x = true -> B64.valid x' = true ->
  digits mc = 53 \/ (full x /\ full x') ->
  B64.leb (B64.mul x (S754_finite false mc ec))
          (B64.mul x' (S754_finite false mc ec)) = true.
Proof.
  intros N L V V' F.
  pose proof (leb_nonneg x x' N L) as N'.
  destruct (nonneg_cases x N) as [[s ->]|[(m & e & ->)| ->]];
    destruct (nonneg_cases x' N') as [[s' ->]|[(m' & e' & ->)| ->]];
    try discriminate; try reflexivity.
  - (* zero and finite *)
    assert (P : e' + ec <= fexp (digits (m' * mc) + (e' + ec)))
      by (apply mul_pre; cbn [full] in F; tauto).
    pose proof (pack_nonneg _ _ (rne_good _ _ P)) as H.
    rewrite <- bra_exact, <- mul_finite in H by assumption.
    unfold nonneg in H.
    destruct (B64.mul (S754_finite false m' e') (S754_finite false mc ec))
      as [?|[|]| |[|] ? ?]; try discriminate; destruct s; reflexivity.
  - (* finite and finite *)
    rewrite !mul_finite.
    apply bra_mono; try (apply mul_pre; cbn [full] in F; tauto).
    destruct (leb_dyle _ _ _ _ V V' L) as [He Hm].
    split; [lia|]. replace (e' + ec - (e + ec)) with (e' - e) by lia.
    rewrite !Pos2Z.inj_mul.
    assert (0 < 2 ^ (e' - e)) by (apply Z.pow_pos_nonneg; lia). nia.
  - (* finite and infinite *)
    rewrite mul_finite, bra_exact by (apply mul_pre; cbn [full] in F; tauto).
    apply pack_le_inf, rne_good, mul_pre. cbn [full] in F; tauto.
Qed.

Lemma trunc_nonneg x : nonneg x = true -> 0 <= B64.trunc x.
Proof.
  intros N. destruct (nonneg_cases x N) as [[s ->]|[(m & e & ->)| ->]];
    cbn [B64.trunc]; try lia.
  destruct (Z.leb_spec 0 e).
  - assert (0 < 2 ^ e) by (apply Z.pow_pos_nonneg; lia). nia.
  - apply Z.div_pos; [lia|]. apply Z.pow_pos_nonneg; lia.
Qed.

Lemma trunc_dyle m e m' e' :
  dyle (Z.pos m) e (Z.pos m') e' ->
  B64.trunc (S754_finite false m e) <= B64.trunc (S754_finite false m' e').
Proof.
  intros [He Hm]. cbn [B64.trunc].
  assert (Pd : 0 < 2 ^ (e' - e)) by (apply Z.pow_pos_nonneg; lia).
  destruct (Z.leb_spec 0 e); destruct (Z.leb_spec 0 e'); try lia.
  - replace e' with (e' - e + e) at 1 by lia. rewrite Z.pow_add_r by lia.
    assert (0 < 2 ^ e) by (apply Z.pow_pos_nonneg; lia). nia.
  - assert (P : 0 < 2 ^ (- e)) by (apply Z.pow_pos_nonneg; lia).
    apply Z.div_le_upper_bound; [assumption|].
    replace (e' - e) with (e' + - e) in Hm by lia.
    rewrite Z.pow_add_r in Hm by lia. lia.
  - assert (P : 0 < 2 ^ (- e)) by (apply Z.pow_pos_nonneg; lia).
    assert (P' : 0 < 2 ^ (- e')) by (apply Z.pow_pos_nonneg; lia).
    replace (- e) with (- e' + (e' - e)) by lia.
    rewrite Z.pow_add_r by lia.
    rewrite <- (Z.div_mul_cancel_r (Z.pos m') (2 ^ (- e')) (2 ^ (e' - e)))
      by lia.
    apply Z.div_le_mono; [|assumption].
    apply Z.mul_pos_pos; assumption.
Qed.

Lemma trunc_mono x x' :
  nonneg x = true -> B64.leb x x' = true ->
  B64.valid x = true -> B64.valid x' = true ->
  B64.is_finite x' = true ->
  B64.trunc x <= B64.trunc x'.
Proof.
  intros N L V V' F.
  pose proof (leb_nonneg x x' N L) as N'.
  pose proof (trunc_nonneg x' N') as T'.
  destruct (nonneg_cases x N) as [[s ->]|[(m & e & ->)| ->]];
    destruct (nonneg_cases x' N') as [[s' ->]|[(m' & e' & ->)| ->]];
    try discriminate; try exact T'.
  apply trunc_dyle, leb_dyle; assumption.
Qed.

End MulTrunc.

(** ** Conversion of integers *)

Section OfZ.

Import Round.

Lemma digits_shift p k m : 0 <= k -> Z.pos m = Z.pos p * 2 ^ k ->
  digits m = digits p + k.
Proof.
  intros Hk E. apply digits_unique. rewrite E.
  pose proof (digits_bounds p) as [L U]. pose proof (digits_pos p).
  assert (0 < 2 ^ k) by (apply Z.pow_pos_nonneg; lia).
  replace (digits p + k - 1) with (digits p - 1 + k) by lia.
  rewrite !Z.pow_add_r by lia. nia.
Qed.

(** [of_Z] aligns the integer on the grid of the format, then rounds. *)
Lemma of_Z_pos p :
  exists mz ez,
    B64.of_Z (Z.pos p)
    = binary_round_aux B64.prec B64.emax false (Z.pos mz) ez loc_Exact
    /\ ez = Z.min 0 (fexp (digits p))
    /\ Z.pos mz = Z.pos p * 2 ^ (- ez)
    /\ digits mz + ez = digits p.
Proof.
  unfold B64.of_Z, binary_normalize, binary_round, shl_align.
  rewrite fexp_eq. fold (digits p). rewrite Z.add_0_r, Z.sub_0_r.
  destruct (fexp (digits p)) as [|f|f] eqn:F.
  - exists p, 0. repeat split; simpl; lia.
  - exists p, 0. repeat split; simpl; lia.
  - exists (Pos.iter xO p f), (Z.neg f).
    assert (E : Z.pos (Pos.iter xO p f) = Z.pos p * 2 ^ (- Z.neg f))
      by (rewrite iter_xO; reflexivity).
    repeat split; try lia; auto.
    rewrite (digits_shift p (- Z.neg f)) by (auto; lia). lia.
Qed.

Lemma of_Z_pre p mz ez :
  ez = Z.min 0 (fexp (digits p)) -> digits mz + ez = digits p ->
  ez <= fexp (digits mz + ez).
Proof. intros -> ->. lia. Qed.

Lemma pack_full s M E : good M E -> emin < E -> full (pack s M E).
Proof.
  intros [[M0 M53] [HE Hn]] G. specialize (Hn G). unfold pack.
  destruct (Z.eqb_spec M 0); [exact I|].
  destruct (Z.eqb_spec M (2 ^ 53)).
  - destruct (E + 1 <=? 971); [reflexivity|exact I].
  - destruct (E <=? 971); [|exact I]. cbn [full].
    apply digits_unique. rewrite Z2Pos.id by lia. change (53 - 1) with 52.
    lia.
Qed.

Lemma pack_finite s M E : E <= 970 -> B64.is_finite (pack s M E) = true.
Proof.
  intros H. unfold pack.
  destruct (M =? 0); [reflexivity|].
  destruct (M =? 2 ^ 53);
    [destruct (Z.leb_spec (E + 1) 971)|destruct (Z.leb_spec E 971)];
    try reflexivity; lia.
Qed.

Lemma of_Z_props z : 0 <= z ->
  nonneg (B64.of_Z z) = true /\ B64.valid (B64.of_Z z) = true
  /\ full (B64.of_Z z).
Proof.
  intros Hz. destruct z as [|p|p]; [repeat split| |lia].
  destruct (of_Z_pos p) as (mz & ez & -> & He & Hm & Hd).
  pose proof (of_Z_pre p mz ez He Hd) as P.
  rewrite bra_exact by assumption.
  pose proof (rne_good mz ez P) as G.
  repeat split; [apply pack_nonneg|apply pack_valid|apply pack_full]; auto.
  rewrite Hd. pose proof (digits_pos p). unfold fexp, emin. lia.
Qed.

Lemma of_Z_mono z z' : 0 <= z <= z' ->
  B64.leb (B64.of_Z z) (B64.of_Z z') = true.
Proof.
  intros [Hz Hzz].
  destruct z as [|p|p]; [|destruct z' as [|p'|p']|]; try lia.
  - apply (of_Z_props z'). lia.
  - destruct (of_Z_pos p) as (mz & ez & -> & He & Hm & Hd).
    destruct (of_Z_pos p') as (mz' & ez' & -> & He' & Hm' & Hd').
    apply bra_mono; try (eapply of_Z_pre; eassumption).
    assert (D : digits p <= digits p').
    { pose proof (dyle_digits p 0 p' 0). unfold dyle in H.
      rewrite Z.sub_diag, Z.pow_0_r in H. lia. }
    apply fexp_mono in D.
    split; [lia|]. rewrite Hm, Hm'.
    rewrite <- Z.mul_assoc, <- Z.pow_add_r by lia.
    replace (- ez' + (ez' - ez)) with (- ez) by lia.
    assert (0 < 2 ^ (- ez)) by (apply Z.pow_pos_nonneg; lia). nia.
Qed.

Lemma of_Z_finite_digits p : digits p <= 1023 ->
  B64.is_finite (B64.of_Z (Z.pos p)) = true.
Proof.
  intros D. destruct (of_Z_pos p) as (mz & ez & -> & He & Hm & Hd).
  rewrite bra_exact by (eapply of_Z_pre; eassumption).
  apply pack_finite. rewrite Hd. unfold fexp, emin. lia.
Qed.

(** The integer part of a float is a float. *)
Lemma of_Z_trunc_finite x :
  nonneg x = true -> B64.valid x = true -> B64.is_finite x = true ->
  B64.is_finite (B64.of_Z (B64.trunc x)) = true.
Proof.
  intros N V F.
  destruct (nonneg_cases x N) as [[s ->]|[(m & e & ->)| ->]];
    try reflexivity; try discriminate.
  pose proof (trunc_nonneg _ N) as T.
  destruct (B64.trunc (S754_finite false m e)) as [|p|p] eqn:Tr;
    [reflexivity| |lia].
  pose proof (valid_bounds _ _ _ V) as (B1 & B2 & B3).
  pose proof (proj1 (valid_finite _ _ _) V) as [C _].
  cbn [B64.trunc] in Tr.
  destruct (Z.leb_spec 0 e).
  - (* an integer already: the conversion is exact *)
    destruct (of_Z_pos p) as (mz & ez & -> & He & Hm & Hd).
    assert (Dp : digits p = digits m + e) by (apply digits_shift; lia).
    rewrite Dp, C, Z.min_l in He by lia. subst ez.
    rewrite bra_exact by (rewrite Hd, Dp, C; lia).
    rewrite Hd, Dp, C, Z.sub_0_r.
    change (- 0) with 0 in Hm. rewrite Z.pow_0_r, Z.mul_1_r in Hm.
    unfold rne. rewrite Hm, <- Tr, dne_exact by (apply Z.pow_pos_nonneg; lia).
    unfold pack. change (Z.pos m =? 0) with false. cbv iota.
    destruct (Z.eqb_spec (Z.pos m) (2 ^ 53)); [lia|].
    destruct (Z.leb_spec e 971); [reflexivity|lia].
  - apply of_Z_finite_digits.
    assert (P : 0 < 2 ^ (- e)) by (apply Z.pow_pos_nonneg; lia).
    assert (Z.pos p <= Z.pos m).
    { rewrite <- Tr. apply Z.div_le_upper_bound; nia. }
    pose proof (dyle_digits p 0 m 0). unfold dyle in H1.
    rewrite Z.sub_diag, Z.pow_0_r in H1.
    pose proof (digits_bounds m) as [L _]. pose proof (digits_pos m).
    destruct (Z_le_gt_dec (digits m) 53);
      [lia|].
    assert (2 ^ 53 <= 2 ^ (digits m - 1)) by (apply Z.pow_le_mono_r; lia).
    lia.
Qed.

End OfZ.

(** ** The reciprocal *)

Section Reciprocal.

Import Round.

(** The location computed from a remainder, then rounding, is
    nearest-even division. *)
Lemma new_location_round a b : 0 < b ->
  round_nearest_even (a / b) (new_location b (a mod b))
  = Fmt.div_nearest_even a b.
Proof.
  intros Hb. pose proof (Z.mod_pos_bound a b Hb) as Hr.
  unfold Fmt.div_nearest_even, new_location.
  set (q := a / b). set (r := a mod b) in *.
  destruct (Z.even b) eqn:Ev;
    unfold new_location_even, new_location_odd;
    destruct (Z.eqb_spec r 0) as [R|R]; cbn [round_nearest_even].
  - rewrite R. destruct (Z.compare_spec (2 * 0) b); try reflexivity; lia.
  - destruct (Z.compare_spec (2 * r) b); reflexivity.
  - rewrite R. destruct (Z.compare_spec (2 * 0) b); try reflexivity; lia.
  - assert (2 * r <> b).
    { intros Q. rewrite <- Q, Z.even_mul in Ev. discriminate. }
    destruct (Z.compare_spec (2 * r + 1) b);
      destruct (Z.compare_spec (2 * r) b); try reflexivity; lia.
Qed.

Lemma new_location_0 b : new_location b 0 = loc_Exact.
Proof. unfold new_location. destruct (Z.even b); reflexivity. Qed.

Lemma bra_top s e : emin <= e ->
  binary_round_aux B64.prec B64.emax s (2 ^ 53) e loc_Exact
  = pack s (2 ^ 53) e.
Proof.
  intros He. change (2 ^ 53) with (Z.pos (Z.to_pos (2 ^ 53))) at 1.
  assert (D : digits (Z.to_pos (2 ^ 53)) = 54) by reflexivity.
  rewrite bra_exact; rewrite D; [|unfold fexp; lia].
  replace (fexp (54 + e)) with (e + 1) by (unfold fexp; lia).
  replace (e + 1 - e) with 1 by lia.
  change (rne (Z.pos (Z.to_pos (2 ^ 53))) 1) with (2 ^ 52).
  reflexivity.
Qed.

(** A mantissa on the grid of the format, or the exact [2^53]. *)
Lemma bra_grid s q e l :
  emin <= e ->
  fexp (digits q + e) = e \/ (Z.pos q = 2 ^ 53 /\ l = loc_Exact) ->
  binary_round_aux B64.prec B64.emax s (Z.pos q) e l
  = pack s (round_nearest_even (Z.pos q) l) e.
Proof.
  intros He [H|[-> ->]].
  - apply bra_noshift, H.
  - apply bra_top, He.
Qed.

Lemma div_core my ey :
  digits my = 53 -> ey <= 971 ->
  SFdiv_core_binary B64.prec B64.emax (Z.pos 4503599627370496) (-52)
    (Z.pos my) ey
  = (2 ^ (52 + recip_shift ey) / Z.pos my, recip_exp ey,
     new_location (Z.pos my) (2 ^ (52 + recip_shift ey) mod Z.pos my)).
Proof.
  intros D B. unfold SFdiv_core_binary.
  rewrite fexp_eq, !Zdigits2_pos, D.
  change (digits 4503599627370496) with 53.
  replace (Z.min (fexp (53 + -52 - (53 + ey))) (-52 - ey))
    with (recip_exp ey) by (unfold recip_exp, fexp, emin; lia).
  assert (S : -52 - ey - recip_exp ey = recip_shift ey)
    by (unfold recip_exp, recip_shift, emin; lia).
  rewrite S.
  assert (P : 0 < recip_shift ey) by (unfold recip_shift; lia).
  destruct (recip_shift ey) as [|sh|sh] eqn:Sh; try lia.
  rewrite Z.shiftl_mul_pow2 by lia.
  change (Z.pos 4503599627370496) with (2 ^ 52).
  rewrite <- Z.pow_add_r by lia.
  unfold Z.div, Z.modulo.
  destruct (Z.div_eucl (2 ^ (52 + Z.pos sh)) (Z.pos my)); reflexivity.
Qed.

(** Bounds on the quotient mantissa. *)
Lemma recip_quot my sh :
  digits my = 53 -> 0 < sh ->
  (Z.pos my = 2 ^ 52 /\ 2 ^ (52 + sh) / Z.pos my = 2 ^ sh
     /\ 2 ^ (52 + sh) mod Z.pos my = 0)
  \/ (2 ^ 52 < Z.pos my
      /\ 2 ^ (sh - 1) <= 2 ^ (52 + sh) / Z.pos my < 2 ^ sh).
Proof.
  intros D S. pose proof (digits_bounds my) as [L U]. rewrite D in L, U.
  change (53 - 1) with 52 in L.
  assert (P : 0 < 2 ^ sh) by (apply Z.pow_pos_nonneg; lia).
  assert (P1 : 0 < 2 ^ (sh - 1)) by (apply Z.pow_pos_nonneg; lia).
  assert (E : 2 ^ sh = 2 * 2 ^ (sh - 1)).
  { rewrite <- Z.pow_succ_r by lia. f_equal. lia. }
  rewrite Z.pow_add_r by lia.
  destruct (Z.eq_dec (Z.pos my) (2 ^ 52)) as [Q|Q]; [left|right].
  - rewrite Q. rewrite Z.mul_comm, Z.div_mul, Z.mod_mul by lia. auto.
  - split; [lia|]. split.
    + apply Z.div_le_lower_bound; [lia|]. nia.
    + apply Z.div_lt_upper_bound; [lia|]. nia.
Qed.

End Reciprocal.

Section ReciprocalOrder.

Import Round.

Lemma recip_mant_bounds my ey :
  digits my = 53 -> ey <= 971 ->
  2 ^ (recip_shift ey - 1) <= recip_mant (Z.pos my) ey
    <= 2 ^ recip_shift ey.
Proof.
  intros D B. assert (S : 0 < recip_shift ey) by (unfold recip_shift; lia).
  pose proof (dne_bounds (2 ^ (52 + recip_shift ey)) (Z.pos my) ltac:(lia))
    as [B1 B2].
  fold (recip_mant (Z.pos my) ey) in B1, B2.
  destruct (recip_quot my (recip_shift ey) D S) as [(Q & Q1 & Q2)|(Q & Q1)].
  - assert (E : recip_mant (Z.pos my) ey = 2 ^ recip_shift ey).
    { unfold recip_mant. rewrite Q, Z.pow_add_r, Z.mul_comm by lia.
      apply dne_exact. lia. }
    rewrite E. split; [|lia]. apply Z.pow_le_mono_r; lia.
  - lia.
Qed.

Lemma recip_good my ey :
  digits my = 53 -> ey <= 971 ->
  good (recip_mant (Z.pos my) ey) (recip_exp ey).
Proof.
  intros D B. pose proof (recip_mant_bounds my ey D B) as [L U].
  assert (S : 0 < recip_shift ey <= 53) by (unfold recip_shift; lia).
  assert (2 ^ recip_shift ey <= 2 ^ 53) by (apply Z.pow_le_mono_r; lia).
  assert (0 < 2 ^ (recip_shift ey - 1)) by (apply Z.pow_pos_nonneg; lia).
  repeat split; try lia.
  - unfold recip_exp. lia.
  - intros G. assert (E : recip_shift ey = 53)
      by (unfold recip_shift, recip_exp, emin in *; lia).
    rewrite E in L. exact L.
Qed.

(** [1.0 / y] for a valid positive [y] with a full mantissa. *)
Lemma div_one my ey :
  B64.valid (S754_finite false my ey) = true -> digits my = 53 ->
  B64.div B64.one (S754_finite false my ey)
  = pack false (recip_mant (Z.pos my) ey) (recip_exp ey).
Proof.
  intros V D. pose proof (valid_bounds _ _ _ V) as (B1 & B2 & B3).
  unfold B64.div, B64.one, SFdiv. rewrite div_core by (auto; lia).
  cbn [xorb].
  assert (S : 0 < recip_shift ey <= 53) by (unfold recip_shift; lia).
  assert (HE : emin <= recip_exp ey) by (unfold recip_exp; lia).
  unfold recip_mant. rewrite <- new_location_round by lia.
  destruct (recip_quot my (recip_shift ey) D ltac:(lia))
    as [(Q & Q1 & Q2)|(Q & Q1)].
  - rewrite Q1, Q2.
    assert (P : 0 < 2 ^ recip_shift ey) by (apply Z.pow_pos_nonneg; lia).
    destruct (2 ^ recip_shift ey) as [|q|q] eqn:Eq; try lia.
    rewrite new_location_0.
    apply bra_grid; auto.
    destruct (Z.eq_dec (recip_shift ey) 53) as [E53|N53].
    + right. rewrite <- Eq, E53. auto.
    + left. assert (Dq : digits q = recip_shift ey + 1).
      { apply digits_unique. rewrite <- Eq.
        replace (recip_shift ey + 1 - 1) with (recip_shift ey) by lia.
        split; [lia|]. apply Z.pow_lt_mono_r; lia. }
      rewrite Dq. unfold recip_shift, recip_exp, fexp, emin in *. lia.
  - assert (P : 0 < 2 ^ (recip_shift ey - 1))
      by (apply Z.pow_pos_nonneg; lia).
    destruct (2 ^ (52 + recip_shift ey) / Z.pos my) as [|q|q] eqn:Eq;
      try lia.
    apply bra_grid; auto. left.
    assert (Dq : digits q = recip_shift ey) by (apply digits_unique; lia).
    rewrite Dq. unfold recip_shift, recip_exp, fexp, emin in *. lia.
Qed.

Lemma div_one_props my ey :
  B64.valid (S754_finite false my ey) = true -> digits my = 53 ->
  nonneg (B64.div B64.one (S754_finite false my ey)) = true
  /\ B64.valid (B64.div B64.one (S754_finite false my ey)) = true
  /\ exists m e, B64.div B64.one (S754_finite false my ey)
                 = S754_finite false m e.
Proof.
  intros V D. pose proof (valid_bounds _ _ _ V) as (B1 & B2 & B3).
  rewrite div_one by assumption.
  pose proof (recip_good my ey D ltac:(lia)) as G.
  split; [apply pack_nonneg, G|]. split; [apply pack_valid, G|].
  pose proof (recip_mant_bounds my ey D ltac:(lia)) as [L U].
  assert (0 < 2 ^ (recip_shift ey - 1))
    by (apply Z.pow_pos_nonneg; unfold recip_shift; lia).
  unfold pack.
  destruct (Z.eqb_spec (recip_mant (Z.pos my) ey) 0); [lia|].
  destruct (recip_mant (Z.pos my) ey =? 2 ^ 53);
    [destruct (Z.leb_spec (recip_exp ey + 1) 971)
    |destruct (Z.leb_spec (recip_exp ey) 971)]; eauto;
    unfold recip_exp, emin in *; lia.
Qed.

(** A larger divisor gives a smaller quotient. *)
Lemma div_one_anti my ey my' ey' :
  B64.valid (S754_finite false my ey) = true -> digits my = 53 ->
  B64.valid (S754_finite false my' ey') = true -> digits my' = 53 ->
  B64.leb (S754_finite false my ey) (S754_finite false my' ey') = true ->
  B64.leb (B64.div B64.one (S754_finite false my' ey'))
          (B64.div B64.one (S754_finite false my ey)) = true.
Proof.
  intros V D V' D' L.
  pose proof (valid_bounds _ _ _ V) as (B1 & B2 & B3).
  pose proof (valid_bounds _ _ _ V') as (B1' & B2' & B3').
  rewrite !div_one by assumption.
  pose proof (recip_good my ey D ltac:(lia)) as G.
  pose proof (recip_good my' ey' D' ltac:(lia)) as G'.
  apply pack_le; auto.
  apply leb_finite in L. destruct L as [L|[<- L]].
  - destruct (Z.eq_dec (recip_exp ey') (recip_exp ey)) as [Q|Q];
      [right; split; auto|left; unfold recip_exp in *; lia].
    pose proof (recip_mant_bounds my ey D ltac:(lia)) as [Lo _].
    pose proof (recip_mant_bounds my' ey' D' ltac:(lia)) as [_ Up].
    assert (recip_shift ey' <= recip_shift ey - 1)
      by (unfold recip_shift, recip_exp, emin in *; lia).
    assert (2 ^ recip_shift ey' <= 2 ^ (recip_shift ey - 1))
      by (apply Z.pow_le_mono_r; unfold recip_shift in *; lia).
    lia.
  - right. split; auto. unfold recip_mant.
    apply dne_anti; try lia.
Qed.

End ReciprocalOrder.

(** ** The general scorer, step by step *)

Section General.

Import Round.

Lemma lit_one : B64.lit 10 1 = B64.one.
Proof. vm_compute. reflexivity. Qed.

Lemma int_to_float_1000 : int_to_float 1000 = Ok c1000.
Proof. vm_compute. reflexivity. Qed.

Lemma c1000_full : digits 8796093022208000 = 53.
Proof. reflexivity. Qed.

Lemma general_method_unfold n t :
  general_method (PyInt n) (PyFloat t)
  = (steps <- py_int (PyFloat (B64.mul t c1000)) ;;
     f <- int_to_float n ;;
     imp <- match f with
            | S754_zero _ => Raise ZeroDivisionError
            | _ => Ok (B64.div B64.one f)
            end ;;
     g <- int_to_float steps ;;
     Ok (py_min (B64.mul g imp) B64.one)).
Proof.
  unfold general_method, py_mul_int, py_truediv, py_int_mul_float.
  rewrite int_to_float_1000, lit_one. cbn [bind].
  destruct (py_int (PyFloat (B64.mul t c1000))); cbn [bind]; [|reflexivity].
  destruct (int_to_float n) as [f|]; cbn [bind]; [|reflexivity].
  destruct f; cbn [bind]; try reflexivity;
    destruct (int_to_float a); reflexivity.
Qed.

Lemma int_to_float_ok z f :
  int_to_float z = Ok f <-> B64.is_finite (B64.of_Z z) = true /\ f = B64.of_Z z.
Proof.
  unfold int_to_float. destruct (B64.is_finite (B64.of_Z z)); split.
  - intros [= <-]. auto.
  - intros [_ ->]. reflexivity.
  - discriminate.
  - intros [[=] _].
Qed.

Lemma py_int_ok x z :
  py_int (PyFloat x) = Ok z <-> B64.is_finite x = true /\ z = B64.trunc x.
Proof.
  destruct x; cbn [py_int B64.is_finite]; split;
    try (intros [= <-]; auto); try (intros [_ ->]; reflexivity);
    try discriminate; intros [[=] _].
Qed.

(** A positive integer converts to a positive float with a full
    mantissa, or is out of range. *)
Lemma of_Z_pos_finite n : 0 < n -> B64.is_finite (B64.of_Z n) = true ->
  exists m e, B64.of_Z n = S754_finite false m e
              /\ B64.valid (S754_finite false m e) = true
              /\ digits m = 53.
Proof.
  intros Hn F. destruct (of_Z_props n ltac:(lia)) as (N & V & Fu).
  destruct n as [|p|p]; try lia.
  destruct (of_Z_pos p) as (mz & ez & E & He & Hm & Hd).
  pose proof (of_Z_pre p mz ez He Hd) as P.
  pose proof (rne_good mz ez P) as G. rewrite Hd in G.
  rewrite E, bra_exact, Hd in * by assumption.
  destruct (pack_cases _ _ G) as [[_ Z0]|[(m & e & Q)|Q]].
  - destruct G as (_ & _ & G). pose proof (digits_pos p).
    unfold fexp, emin in *. lia.
  - rewrite Q in *. eauto.
  - rewrite Q in F. discriminate.
Qed.

(** The exact conditions under which the scorer returns. *)
Lemma general_method_ok n t v : 0 < n ->
  general_method (PyInt n) (PyFloat t) = Ok v <->
  B64.is_finite (B64.mul t c1000) = true
  /\ B64.is_finite (B64.of_Z n) = true
  /\ B64.is_finite (B64.of_Z (B64.trunc (B64.mul t c1000))) = true
  /\ v = quality n t.
Proof.
  intros Hn. rewrite general_method_unfold. unfold quality.
  set (x := B64.mul t c1000).
  split.
  - destruct (py_int (PyFloat x)) as [steps|] eqn:S; cbn [bind];
      [|discriminate].
    apply py_int_ok in S. destruct S as [Fx ->].
    destruct (int_to_float n) as [f|] eqn:I; cbn [bind]; [|discriminate].
    apply int_to_float_ok in I. destruct I as [Fn ->].
    destruct (of_Z_pos_finite n Hn Fn) as (m & e & -> & _). cbn [bind].
    destruct (int_to_float (B64.trunc x)) as [g|] eqn:J; cbn [bind];
      [|discriminate].
    apply int_to_float_ok in J. destruct J as [Fs ->].
    intros [= <-]. repeat split; auto.
  - intros (Fx & Fn & Fs & ->).
    assert (S : py_int (PyFloat x) = Ok (B64.trunc x))
      by (apply py_int_ok; auto).
    assert (I : int_to_float n = Ok (B64.of_Z n))
      by (apply int_to_float_ok; auto).
    assert (J : int_to_float (B64.trunc x) = Ok (B64.of_Z (B64.trunc x)))
      by (apply int_to_float_ok; auto).
    rewrite S. cbn [bind]. rewrite I. cbn [bind].
    destruct (of_Z_pos_finite n Hn Fn) as (m & e & -> & _). cbn [bind].
    rewrite J. reflexivity.
Qed.

(** *** The clamp *)

Lemma one_pos : Z.pos 4503599627370496 = 2 ^ 52.
Proof. reflexivity. Qed.

Ltac ordered :=
  repeat match goal with
    | H : B64.leb (S754_finite false _ _) (S754_finite false _ _) = true |- _ =>
        apply leb_finite in H
    | H : B64.ltb (S754_finite false _ _) (S754_finite false _ _) = true |- _ =>
        apply ltb_finite in H
    | H : B64.ltb (S754_finite false _ _) (S754_finite false _ _) = false |- _ =>
        rewrite <- Bool.not_true_iff_false, ltb_finite in H
    | |- B64.leb (S754_finite false _ _) (S754_finite false _ _) = true =>
        apply leb_finite
    | |- B64.ltb (S754_finite false _ _) (S754_finite false _ _) = true =>
        apply ltb_finite
    end.

Lemma py_min_range q : nonneg q = true ->
  B64.leb B64.zero (py_min q B64.one) = true
  /\ B64.leb (py_min q B64.one) B64.one = true.
Proof.
  intros N. unfold py_min.
  destruct (nonneg_cases q N) as [[s ->]|[(m & e & ->)| ->]].
  - split; reflexivity.
  - destruct (B64.ltb B64.one (S754_finite false m e)) eqn:L;
      [split; reflexivity|].
    split; [reflexivity|]. unfold B64.one in *. ordered. lia.
  - split; reflexivity.
Qed.

Lemma py_min_mono q q' : nonneg q = true -> B64.leb q q' = true ->
  B64.leb (py_min q B64.one) (py_min q' B64.one) = true.
Proof.
  intros N L. pose proof (leb_nonneg _ _ N L) as N'. unfold py_min.
  destruct (nonneg_cases q N) as [[s ->]|[(m & e & ->)| ->]];
    destruct (nonneg_cases q' N') as [[s' ->]|[(m' & e' & ->)| ->]];
    try discriminate; try reflexivity.
  - change (B64.ltb B64.one (S754_zero s)) with false. cbv iota.
    destruct (B64.ltb B64.one (S754_finite false m' e')); reflexivity.
  - destruct (B64.ltb B64.one (S754_finite false m e)) eqn:L1;
      destruct (B64.ltb B64.one (S754_finite false m' e')) eqn:L2;
      try reflexivity; unfold B64.one in *; ordered; lia.
  - change (B64.ltb B64.one (S754_infinity false)) with true. cbv iota.
    destruct (B64.ltb B64.one (S754_finite false m e)) eqn:L1;
      try reflexivity; unfold B64.one in *; ordered; lia.
Qed.

(** Between valid floats, [<=] both ways with [1.0] is equality. *)
Lemma leb_antisym_one v :
  B64.valid v = true ->
  B64.leb B64.one v = true -> B64.leb v B64.one = true -> v = B64.one.
Proof.
  intros V L1 L2.
  destruct v as [s|[|]| |[|] m e]; try discriminate.
  unfold B64.one in *. ordered.
  assert (e = -52) by lia. subst e.
  assert (Z.pos m = Z.pos 4503599627370496) by lia.
  congruence.
Qed.

Lemma py_min_sat q : B64.valid q = true ->
  B64.leb B64.one q = true -> py_min q B64.one = B64.one.
Proof.
  intros V L. unfold py_min.
  destruct (B64.ltb B64.one q) eqn:L1; [reflexivity|].
  apply leb_antisym_one; auto.
  destruct q as [s|[|]| |[|] m e]; try discriminate.
  unfold B64.one in *. ordered. lia.
Qed.

Lemma py_min_comm q : B64.valid q = true -> nonneg q = true ->
  py_min q B64.one = py_min B64.one q.
Proof.
  intros V N. unfold py_min.
  destruct (nonneg_cases q N) as [[s ->]|[(m & e & ->)| ->]];
    try reflexivity.
  destruct (B64.ltb B64.one (S754_finite false m e)) eqn:L1;
    destruct (B64.ltb (S754_finite false m e) B64.one) eqn:L2;
    try reflexivity.
  - unfold B64.one in *. ordered. lia.
  - apply leb_antisym_one; auto; unfold B64.one in *; ordered; lia.
Qed.

(** *** The intermediate values *)

Lemma steps_float t : nonneg t = true ->
  nonneg (B64.mul t c1000) = true /\ B64.valid (B64.mul t c1000) = true.
Proof. intros N. apply mul_nonneg; auto. Qed.

Lemma steps_props t : nonneg t = true ->
  0 <= B64.trunc (B64.mul t c1000).
Proof. intros N. apply trunc_nonneg, steps_float, N. Qed.

Lemma per_step_props n : 0 < n -> B64.is_finite (B64.of_Z n) = true ->
  exists m e, B64.div B64.one (B64.of_Z n) = S754_finite false m e
              /\ B64.valid (S754_finite false m e) = true.
Proof.
  intros Hn F. destruct (of_Z_pos_finite n Hn F) as (my & ey & -> & V & D).
  destruct (div_one_props my ey V D) as (_ & V' & m & e & E).
  exists m, e. rewrite E in *. auto.
Qed.

Lemma product_props n t : 0 < n -> nonneg t = true ->
  B64.is_finite (B64.of_Z n) = true ->
  nonneg (B64.mul (B64.of_Z (B64.trunc (B64.mul t c1000)))
                  (B64.div B64.one (B64.of_Z n))) = true
  /\ B64.valid (B64.mul (B64.of_Z (B64.trunc (B64.mul t c1000)))
                        (B64.div B64.one (B64.of_Z n))) = true.
Proof.
  intros Hn N F. destruct (per_step_props n Hn F) as (m & e & -> & _).
  destruct (of_Z_props _ (steps_props t N)) as (N1 & _ & F1).
  apply mul_nonneg; auto.
Qed.

(** When the product does not overflow, neither does any later step. *)
Lemma general_method_returns n t : 0 < n -> nonneg t = true ->
  B64.is_finite (B64.of_Z n) = true ->
  B64.is_finite (B64.mul t c1000) = true ->
  general_method (PyInt n) (PyFloat t) = Ok (quality n t).
Proof.
  intros Hn N Fn Fx. apply general_method_ok; auto.
  destruct (steps_float t N) as [Nx Vx].
  repeat split; auto. apply of_Z_trunc_finite; auto.
Qed.

End General.

(** ** Monotonicity of the quality *)

Section QualityOrder.

Import Round.

Lemma leb_finite_l x x' : nonneg x = true -> B64.leb x x' = true ->
  B64.is_finite x' = true -> B64.is_finite x = true.
Proof.
  intros N L F. pose proof (leb_nonneg _ _ N L) as N'.
  destruct (nonneg_cases x N) as [[s ->]|[(m & e & ->)| ->]];
    destruct (nonneg_cases x' N') as [[s' ->]|[(m' & e' & ->)| ->]];
    try discriminate; reflexivity.
Qed.

Lemma quality_mono_t n t1 t2 :
  0 < n -> B64.is_finite (B64.of_Z n) = true ->
  nonneg t1 = true -> B64.valid t1 = true -> B64.valid t2 = true ->
  B64.leb t1 t2 = true ->
  B64.is_finite (B64.mul t2 c1000) = true ->
  B64.is_finite (B64.mul t1 c1000) = true
  /\ B64.leb (quality n t1) (quality n t2) = true.
Proof.
  intros Hn Fn N1 V1 V2 L F2.
  pose proof (leb_nonneg _ _ N1 L) as N2.
  destruct (steps_float t1 N1) as [Nx1 Vx1].
  destruct (steps_float t2 N2) as [Nx2 Vx2].
  assert (Lx : B64.leb (B64.mul t1 c1000) (B64.mul t2 c1000) = true)
    by (apply mul_mono_l; auto).
  split; [eapply leb_finite_l; eassumption|].
  assert (Ls : 0 <= B64.trunc (B64.mul t1 c1000)
                 <= B64.trunc (B64.mul t2 c1000)).
  { split; [apply trunc_nonneg; auto|apply trunc_mono; auto]. }
  destruct (of_Z_props (B64.trunc (B64.mul t1 c1000)) ltac:(lia))
    as (Nf1 & Vf1 & Ff1).
  destruct (of_Z_props (B64.trunc (B64.mul t2 c1000)) ltac:(lia))
    as (Nf2 & Vf2 & Ff2).
  destruct (per_step_props n Hn Fn) as (m & e & E & _).
  unfold quality. rewrite E.
  apply py_min_mono.
  - apply mul_nonneg; auto.
  - apply mul_mono_l; auto. apply of_Z_mono. exact Ls.
Qed.

Lemma quality_anti_n n1 n2 t :
  0 < n1 <= n2 -> B64.is_finite (B64.of_Z n2) = true ->
  nonneg t = true ->
  B64.is_finite (B64.of_Z n1) = true
  /\ B64.leb (quality n2 t) (quality n1 t) = true.
Proof.
  intros Hn F2 N.
  assert (L : B64.leb (B64.of_Z n1) (B64.of_Z n2) = true)
    by (apply of_Z_mono; lia).
  destruct (of_Z_props n1 ltac:(lia)) as (Nn1 & _ & _).
  assert (F1 : B64.is_finite (B64.of_Z n1) = true)
    by (eapply leb_finite_l; eassumption).
  split; [exact F1|].
  destruct (of_Z_pos_finite n1 ltac:(lia) F1) as (m1 & e1 & E1 & V1 & D1).
  destruct (of_Z_pos_finite n2 ltac:(lia) F2) as (m2 & e2 & E2 & V2 & D2).
  unfold quality. rewrite E1, E2 in *.
  pose proof (div_one_anti m1 e1 m2 e2 V1 D1 V2 D2 L) as La.
  destruct (div_one_props m1 e1 V1 D1) as (Ni1 & Vi1 & mi1 & ei1 & Q1).
  destruct (div_one_props m2 e2 V2 D2) as (Ni2 & Vi2 & mi2 & ei2 & Q2).
  destruct (of_Z_props _ (steps_props t N)) as (Nf & Vf & Ff).
  set (fs := B64.of_Z (B64.trunc (B64.mul t c1000))) in *.
  apply py_min_mono.
  - rewrite Q2. apply mul_nonneg; auto.
  - rewrite (mul_comm fs), (mul_comm fs).
    destruct (nonneg_cases fs Nf) as [[s ->]|[(mf & ef & ->)| ->]].
    + rewrite Q1, Q2. reflexivity.
    + apply mul_mono_l; auto.
    + rewrite Q1, Q2. reflexivity.
Qed.

(** Everything below [2^1024 - 2^970] converts to a finite float. *)
Lemma of_Z_finite_bound n : 0 <= n < 2 ^ 1024 - 2 ^ 970 ->
  B64.is_finite (B64.of_Z n) = true.
Proof.
  intros [Hn Hb]. destruct n as [|p|p]; [reflexivity| |lia].
  pose proof (digits_bounds p) as [L U]. pose proof (digits_pos p).
  assert (D : digits p <= 1024).
  { destruct (Z_le_gt_dec (digits p) 1024); auto.
    assert (2 ^ 1024 <= 2 ^ (digits p - 1)) by (apply Z.pow_le_mono_r; lia).
    assert (0 < 2 ^ 970) by (apply Z.pow_pos_nonneg; lia). lia. }
  destruct (Z.eq_dec (digits p) 1024) as [Q|Q];
    [|apply of_Z_finite_digits; lia].
  destruct (of_Z_pos p) as (mz & ez & -> & He & Hm & Hd).
  rewrite Q in He. change (Z.min 0 (fexp 1024)) with 0 in He. subst ez.
  change (- 0) with 0 in Hm. rewrite Z.pow_0_r, Z.mul_1_r in Hm.
  rewrite bra_exact; rewrite Hd, Q; change (fexp 1024) with 971; [|lia].
  rewrite Z.sub_0_r, Hm.
  assert (R : rne (Z.pos p) 971 < 2 ^ 53).
  { unfold rne, Fmt.div_nearest_even.
    set (B := 2 ^ 971) in *.
    assert (PB : 0 < B) by (apply Z.pow_pos_nonneg; lia).
    assert (E1 : 2 ^ 1024 = 2 ^ 53 * B)
      by (unfold B; rewrite <- Z.pow_add_r by lia; reflexivity).
    assert (E2 : B = 2 * 2 ^ 970)
      by (unfold B; rewrite <- Z.pow_succ_r by lia; reflexivity).
    pose proof (Z.div_mod (Z.pos p) B ltac:(lia)) as DM.
    pose proof (Z.mod_pos_bound (Z.pos p) B PB) as MB.
    set (q := Z.pos p / B) in *. set (r := Z.pos p mod B) in *.
    assert (q <= 2 ^ 53 - 1) by nia.
    destruct (Z.compare_spec (2 * r) B); try destruct (Z.even q); try nia. }
  pose proof (dne_bounds (Z.pos p) (2 ^ 971) ltac:(apply Z.pow_pos_nonneg; lia))
    as [B1 _]. fold (rne (Z.pos p) 971) in B1.
  assert (0 <= Z.pos p / 2 ^ 971)
    by (apply Z.div_pos; [lia|apply Z.pow_pos_nonneg; lia]).
  unfold pack.
  destruct (rne (Z.pos p) 971 =? 0); [reflexivity|].
  destruct (Z.eqb_spec (rne (Z.pos p) 971) (2 ^ 53)); [lia|reflexivity].
Qed.

End QualityOrder.

(** ** Negation *)

Section Negation.

Import Round.

Lemma opp_opp x : SFopp (SFopp x) = x.
Proof. destruct x as [s|s| |s m e]; cbn [SFopp]; now rewrite ?negb_involutive. Qed.

Lemma bra_opp m e l :
  binary_round_aux B64.prec B64.emax true m e l
  = SFopp (binary_round_aux B64.prec B64.emax false m e l).
Proof.
unfold binary_round_aux.
destruct (shr_fexp B64.prec B64.emax m e l) as [mrs e1].
destruct (shr_fexp B64.prec B64.emax _ e1 loc_Exact) as [mrs' e2].
destruct (shr_m mrs'); try reflexivity.
destruct (e2 <=? B64.emax - B64.prec); reflexivity.
Qed.

Lemma mul_opp_l x mc ec :
  B64.mul (SFopp x) (S754_finite false mc ec)
  = SFopp (B64.mul x (S754_finite false mc ec)).
Proof.
destruct x as [[|]|[|]| |[|] m e]; try reflexivity;
  unfold B64.mul, SFmul; cbn [SFopp negb xorb].
- now rewrite bra_opp, opp_opp.
- apply bra_opp.
Qed.

Lemma trunc_opp x : B64.trunc (SFopp x) = - B64.trunc x.
Proof.
destruct x as [s|s| |[|] m e]; cbn [SFopp B64.trunc negb]; lia.
Qed.

Lemma of_Z_opp z : z <> 0 -> B64.of_Z (- z) = SFopp (B64.of_Z z).
Proof.
intros Hz. destruct z as [|p|p]; [contradiction| |];
  unfold B64.of_Z, binary_normalize, binary_round; cbn [Z.opp];
  destruct (shl_align p 0 _) as [mz ez].
- apply bra_opp.
- now rewrite bra_opp, opp_opp.
Qed.

Lemma is_finite_opp x : B64.is_finite (SFopp x) = B64.is_finite x.
Proof. destruct x; reflexivity. Qed.


End Negation.

(** ** Small and saturating times *)

Section Thresholds.

Import Round.

Lemma leb_trans x y z : nonneg x = true ->
  B64.leb x y = true -> B64.leb y z = true -> B64.leb x z = true.
Proof.
  intros N L1 L2.
  pose proof (leb_nonneg _ _ N L1) as Ny.
  pose proof (leb_nonneg _ _ Ny L2) as Nz.
  destruct (nonneg_cases x N) as [[s ->]|[(m & e & ->)| ->]];
    destruct (nonneg_cases y Ny) as [[s' ->]|[(m' & e' & ->)| ->]];
    destruct (nonneg_cases z Nz) as [[s'' ->]|[(m'' & e'' & ->)| ->]];
    try discriminate; try reflexivity.
  apply leb_finite in L1, L2. apply leb_finite. lia.
Qed.

Lemma floor_trunc x : nonneg x = true -> B64.floor x = B64.trunc x.
Proof.
  intros N. destruct (nonneg_cases x N) as [[s ->]|[(m & e & ->)| ->]];
    try reflexivity.
  cbn [B64.floor B64.trunc]. destruct (Z.leb_spec 0 e).
  - apply Z.shiftl_mul_pow2. assumption.
  - apply Z.shiftl_div_pow2. lia.
Qed.

Lemma quality_unfold n t :
  quality n t
  = py_min (B64.mul (B64.of_Z (total_steps t)) (improvement_per_step n))
      (B64.lit 10 1).
Proof. reflexivity. Qed.


(** The float just below the literal [0.001], and its product with
    [1000.0]. *)
Lemma below_milli t :
  B64.valid t = true -> nonneg t = true ->
  B64.ltb t (B64.lit 1 3) = true ->
  B64.leb t (S754_finite false 4611686018427387 (-62)) = true.
Proof.
  intros V N L.
  change (B64.lit 1 3) with (S754_finite false 4611686018427388 (-62)) in L.
  destruct (nonneg_cases t N) as [[s ->]|[(m & e & ->)| ->]];
    try discriminate; try reflexivity.
  apply ltb_finite in L. apply leb_finite. lia.
Qed.

Lemma total_steps_small t :
  B64.valid t = true -> nonneg t = true ->
  B64.ltb t (B64.lit 1 3) = true ->
  B64.is_finite (B64.mul t c1000) = true /\ total_steps t = 0.
Proof.
  intros V N L. pose proof (below_milli t V N L) as Lt.
  destruct (steps_float t N) as [Nx Vx].
  assert (Lx : B64.leb (B64.mul t c1000)
                 (S754_finite false 9007199254740990 (-53)) = true).
  { change (S754_finite false 9007199254740990 (-53))
      with (B64.mul (S754_finite false 4611686018427387 (-62)) c1000).
    apply mul_mono_l; auto. }
  assert (F : B64.is_finite (B64.mul t c1000) = true)
    by (eapply leb_finite_l; [exact Nx|exact Lx|reflexivity]).
  split; [exact F|].
  pose proof (trunc_nonneg _ Nx) as T0.
  pose proof (trunc_mono _ _ Nx Lx Vx eq_refl eq_refl) as T1.
  change (B64.trunc (S754_finite false 9007199254740990 (-53))) with 0 in T1.
  unfold total_steps. change (B64.of_Z 1000) with c1000. lia.
Qed.

End Thresholds.

(** * The properties of the specification *)

Section Claims.

Import Round.

(** C1, as stated, fails: for the problem size 1000 and the time 0.0015
    the scorer counts one whole step and returns 0.001, where the formula
    [min(1.0, (t * 1000) * (1.0 / n))] gives 0.0015. *)
Lemma general_method_not_quality_formula :
  0 < 1000
  /\ B64.leb B64.zero (B64.lit 15 4) = true
  /\ general_method (PyInt 1000) (PyFloat (B64.lit 15 4)) = Ok (B64.lit 1 3)
  /\ quality_formula 1000 (B64.lit 15 4) = Ok (B64.lit 15 4)
  /\ B64.lit 1 3 <> B64.lit 15 4.
Proof.
  repeat split; try (vm_compute; reflexivity).
  vm_compute. discriminate.
Qed.

(** C1, amended: for every problem size [0 < n < 2^1024 - 2^970] and every
    time [t >= 0] whose product [t * 1000] is finite, [general_method]
    returns exactly [min(1.0, int(t * 1000) * (1.0 / n))], the number of
    steps being truncated to an integer. *)
Theorem general_method_formula n t :
  0 < n < 2 ^ 1024 - 2 ^ 970 ->
  B64.leb B64.zero t = true ->
  B64.is_finite (B64.mul t (B64.of_Z 1000)) = true ->
  general_method (PyInt n) (PyFloat t)
  = Ok (py_min (B64.lit 10 1)
          (B64.mul (B64.of_Z (total_steps t)) (improvement_per_step n))).
Proof.
  intros Hn N F.
  assert (Fn : B64.is_finite (B64.of_Z n) = true)
    by (apply of_Z_finite_bound; lia).
  rewrite (general_method_returns n t) by (auto; lia).
  f_equal. rewrite quality_unfold, lit_one.
  apply py_min_comm; apply product_props; auto; lia.
Qed.

Lemma general_method_formula_witness :
  general_method (PyInt 5000) (PyFloat (B64.lit 20 1))
  = Ok (py_min (B64.lit 10 1)
          (B64.mul (B64.of_Z (total_steps (B64.lit 20 1)))
                   (improvement_per_step 5000))).
Proof.
  apply (general_method_formula 5000 (B64.lit 20 1)).
  - split; [reflexivity|]. vm_compute. reflexivity.
  - vm_compute. reflexivity.
  - vm_compute. reflexivity.
Defined.

(** C2: [specialized_method] returns the constant 0.7 for every problem
    size, whatever its value or type, and so does not depend on it. *)
Theorem specialized_method_constant :
  forall n : pynum,
    specialized_method n = B64.lit 7 1
    /\ forall n' : pynum, specialized_method n' = specialized_method n.
Proof. intros n. split; [|intros n']; reflexivity. Qed.

(** C3: for every problem size [n > 0] and time [t >= 0], the value
    returned by [general_method] lies between 0 and 1. *)
Theorem general_method_range n t v :
  0 < n -> B64.leb B64.zero t = true ->
  general_method (PyInt n) (PyFloat t) = Ok v ->
  B64.leb B64.zero v = true /\ B64.leb v (B64.lit 10 1) = true.
Proof.
  intros Hn N H. apply general_method_ok in H; [|assumption].
  destruct H as (_ & Fn & _ & ->). rewrite lit_one.
  apply py_min_range, product_props; auto.
Qed.

Lemma general_method_range_witness :
  B64.leb B64.zero (B64.lit 2 2) = true
  /\ B64.leb (B64.lit 2 2) (B64.lit 10 1) = true.
Proof.
  apply (general_method_range 5000 (B64.lit 1 1) (B64.lit 2 2)).
  - reflexivity.
  - vm_compute. reflexivity.
  - vm_compute. reflexivity.
Defined.

(** C4: for a fixed problem size [n > 0] and times [0 <= t1 <= t2], if
    [general_method] returns at [t2] then it returns at [t1], and the
    value at [t1] is at most the value at [t2]. *)
Theorem general_method_monotone_in_time n t1 t2 v2 :
  0 < n ->
  B64.valid t1 = true -> B64.valid t2 = true ->
  B64.leb B64.zero t1 = true -> B64.leb t1 t2 = true ->
  general_method (PyInt n) (PyFloat t2) = Ok v2 ->
  exists v1,
    general_method (PyInt n) (PyFloat t1) = Ok v1
    /\ B64.leb v1 v2 = true.
Proof.
  intros Hn V1 V2 N L H. apply general_method_ok in H; [|assumption].
  destruct H as (F2 & Fn & _ & ->).
  destruct (quality_mono_t n t1 t2 Hn Fn N V1 V2 L F2) as [F1 Lq].
  exists (quality n t1). split; [|exact Lq].
  apply general_method_returns; auto.
Qed.

Lemma general_method_monotone_in_time_witness :
  exists v1,
    general_method (PyInt 5000) (PyFloat (B64.lit 1 1)) = Ok v1
    /\ B64.leb v1 (B64.lit 40 2) = true.
Proof.
  apply (general_method_monotone_in_time 5000
           (B64.lit 1 1) (B64.lit 20 1) (B64.lit 40 2)).
  - reflexivity.
  - vm_compute. reflexivity.
  - vm_compute. reflexivity.
  - vm_compute. reflexivity.
  - vm_compute. reflexivity.
  - vm_compute. reflexivity.
Defined.

(** C5: for a fixed time [t > 0] and problem sizes [0 < n1 <= n2], if
    [general_method] returns at [n2] then it returns at [n1], and the
    value at [n1] is at least the value at [n2]. *)
Theorem general_method_antitone_in_size n1 n2 t v2 :
  0 < n1 -> n1 <= n2 ->
  B64.ltb B64.zero t = true ->
  general_method (PyInt n2) (PyFloat t) = Ok v2 ->
  exists v1,
    general_method (PyInt n1) (PyFloat t) = Ok v1
    /\ B64.leb v2 v1 = true.
Proof.
  intros Hn Hnn P H.
  assert (N : nonneg t = true)
    by (destruct t as [s|[|]| |[|] m e]; try discriminate; reflexivity).
  apply general_method_ok in H; [|lia].
  destruct H as (Fx & F2 & _ & ->).
  destruct (quality_anti_n n1 n2 t ltac:(lia) F2 N) as [F1 Lq].
  exists (quality n1 t). split; [|exact Lq].
  apply general_method_returns; auto.
Qed.

Lemma general_method_antitone_in_size_witness :
  exists v1,
    general_method (PyInt 5000) (PyFloat (B64.lit 10 1)) = Ok v1
    /\ B64.leb (B64.lit 5 2) v1 = true.
Proof.
  apply (general_method_antitone_in_size 5000 20000
           (B64.lit 10 1) (B64.lit 5 2)).
  - reflexivity.
  - discriminate.
  - vm_compute. reflexivity.
  - vm_compute. reflexivity.
Defined.

(** C6: the four concrete cases: [general_method(5000, 0.1) == 0.02],
    [general_method(5000, 2.0) == 0.40],
    [general_method(20000, 1.0) == 0.05] and
    [general_method(10000, 0.5) == 0.05]. *)
Theorem general_method_examples :
  general_method (PyInt 5000) (PyFloat (B64.lit 1 1)) = Ok (B64.lit 2 2)
  /\ general_method (PyInt 5000) (PyFloat (B64.lit 20 1))
     = Ok (B64.lit 40 2)
  /\ general_method (PyInt 20000) (PyFloat (B64.lit 10 1))
     = Ok (B64.lit 5 2)
  /\ general_method (PyInt 10000) (PyFloat (B64.lit 5 1))
     = Ok (B64.lit 5 2).
Proof. repeat split; vm_compute; reflexivity. Qed.

(** C7, as stated, fails: the time 1e306 is finite and non-negative, but
    its product with 1000 is infinite, and [int] of an infinity raises
    [OverflowError], before the division is reached when the problem size
    is 0, and instead of a value when it is 1. *)
Lemma general_method_overflow :
  B64.leb B64.zero (B64.of_Z (10 ^ 306)) = true
  /\ general_method (PyInt 0) (PyFloat (B64.of_Z (10 ^ 306)))
     = Raise OverflowError
  /\ 0 < 1
  /\ general_method (PyInt 1) (PyFloat (B64.of_Z (10 ^ 306)))
     = Raise OverflowError.
Proof. repeat split; vm_compute; reflexivity. Qed.

(** C7, amended: for every time [t] whose product [t * 1000] is finite,
    the problem size 0 makes [general_method] fail with a division-by-zero
    error, and for every problem size [0 < n < 2^1024 - 2^970] and
    [t >= 0] no error is raised and a value is returned. *)
Theorem general_method_errors n t :
  0 <= n < 2 ^ 1024 - 2 ^ 970 ->
  B64.is_finite (B64.mul t (B64.of_Z 1000)) = true ->
  (n = 0 ->
   general_method (PyInt n) (PyFloat t) = Raise ZeroDivisionError)
  /\ (0 < n -> B64.leb B64.zero t = true ->
      exists v, general_method (PyInt n) (PyFloat t) = Ok v).
Proof.
  intros Hn F. split.
  - intros ->. rewrite general_method_unfold.
    assert (S : py_int (PyFloat (B64.mul t c1000))
                = Ok (B64.trunc (B64.mul t c1000)))
      by (apply py_int_ok; auto).
    rewrite S. reflexivity.
  - intros Hp N. exists (quality n t).
    apply general_method_returns; auto.
    apply of_Z_finite_bound. lia.
Qed.

Lemma general_method_errors_witness :
  general_method (PyInt 0) (PyFloat (B64.lit 1 1)) = Raise ZeroDivisionError
  /\ exists v, general_method (PyInt 5000) (PyFloat (B64.lit 1 1)) = Ok v.
Proof.
  split.
  - apply (general_method_errors 0 (B64.lit 1 1)).
    + split; [discriminate|reflexivity].
    + vm_compute. reflexivity.
    + reflexivity.
  - apply (general_method_errors 5000 (B64.lit 1 1)).
    + split; [discriminate|vm_compute; reflexivity].
    + vm_compute. reflexivity.
    + reflexivity.
    + vm_compute. reflexivity.
Defined.

(** C8: run on an empty standard output, [main] succeeds and writes
    exactly the transcript recorded in demo.py, for the problem sizes
    5000, 10000, 20000 and the times 0.1, 0.5, 1.0, 2.0: the header, the
    results of the specialized method, those of the general method, the
    conclusion, every quality with two decimals. *)
Theorem main_transcript : main EmptyString = (Ok tt, transcript).
Proof. vm_compute. reflexivity. Qed.

(** C9, as stated, fails: for the problem size 49 and the time 0.049 the
    scorer multiplies 49 steps by the rounded reciprocal of 49 and returns
    0.9999999999999999, where [min(1.0, floor(t * 1000) / n)] is 1.0. *)
Lemma general_method_not_floor_formula :
  0 < 49
  /\ B64.leb B64.zero (B64.lit 49 3) = true
  /\ general_method (PyInt 49) (PyFloat (B64.lit 49 3))
     = Ok (S754_finite false 9007199254740991 (-53))
  /\ floor_formula 49 (B64.lit 49 3) = Ok (B64.lit 10 1)
  /\ S754_finite false 9007199254740991 (-53) <> B64.lit 10 1.
Proof.
  repeat split; try (vm_compute; reflexivity).
  vm_compute. discriminate.
Qed.

(** C9, amended: for every problem size [0 < n < 2^1024 - 2^970] and time
    [t >= 0] whose product [t * 1000] is finite, [general_method] returns
    [min(1.0, floor(t * 1000) * (1.0 / n))], the reciprocal and the
    product being rounded one after the other; and for every
    [0 <= t < 0.001] it returns exactly 0. *)
Theorem general_method_floor n t :
  0 < n < 2 ^ 1024 - 2 ^ 970 ->
  B64.valid t = true -> B64.leb B64.zero t = true ->
  (B64.is_finite (B64.mul t (B64.of_Z 1000)) = true ->
   general_method (PyInt n) (PyFloat t)
   = Ok (py_min (B64.lit 10 1)
           (B64.mul (B64.of_Z (B64.floor (B64.mul t (B64.of_Z 1000))))
                    (B64.div (B64.lit 10 1) (B64.of_Z n)))))
  /\ (B64.ltb t (B64.lit 1 3) = true ->
      general_method (PyInt n) (PyFloat t) = Ok B64.zero).
Proof.
  intros Hn V N.
  assert (Fn : B64.is_finite (B64.of_Z n) = true)
    by (apply of_Z_finite_bound; lia).
  split.
  - intros F. rewrite floor_trunc by (apply (steps_float t N)).
    rewrite (general_method_returns n t) by (auto; lia).
    f_equal. rewrite quality_unfold, lit_one.
    apply py_min_comm; apply product_props; auto; lia.
  - intros L. destruct (total_steps_small t V N L) as [F S0].
    rewrite (general_method_returns n t) by (auto; lia).
    f_equal. rewrite quality_unfold, S0.
    destruct (per_step_props n ltac:(lia) Fn) as (m & e & E & _).
    unfold improvement_per_step. rewrite lit_one, E. reflexivity.
Qed.

Lemma general_method_floor_witness :
  (B64.is_finite (B64.mul (B64.lit 5 4) (B64.of_Z 1000)) = true ->
   general_method (PyInt 5000) (PyFloat (B64.lit 5 4))
   = Ok (py_min (B64.lit 10 1)
           (B64.mul
              (B64.of_Z (B64.floor (B64.mul (B64.lit 5 4) (B64.of_Z 1000))))
              (B64.div (B64.lit 10 1) (B64.of_Z 5000)))))
  /\ (B64.ltb (B64.lit 5 4) (B64.lit 1 3) = true ->
      general_method (PyInt 5000) (PyFloat (B64.lit 5 4)) = Ok B64.zero).
Proof.
  apply (general_method_floor 5000 (B64.lit 5 4)).
  - split; [reflexivity|vm_compute; reflexivity].
  - vm_compute. reflexivity.
  - vm_compute. reflexivity.
Defined.




End Claims.

(** * Further properties of the general scorer *)

(** ** The inputs on which it returns *)

Section Domain.

Import Round Edge.

Lemma of_Z_infinite n : size_limit <= n -> B64.of_Z n = S754_infinity false.
Proof.
intros Hn.
assert (E : B64.of_Z size_limit = S754_infinity false)
  by (vm_compute; reflexivity).
assert (L : B64.leb (B64.of_Z size_limit) (B64.of_Z n) = true).
{ apply of_Z_mono. split; [|exact Hn]. vm_compute. discriminate. }
rewrite E in L.
destruct (B64.of_Z n) as [s|[|]| |s m e]; try discriminate. reflexivity.
Qed.

(** Valid non-negative floats are totally ordered. *)
Lemma leb_total_succ t m e :
  B64.valid t = true -> nonneg t = true ->
  B64.leb t (S754_finite false m e) = false ->
  B64.leb (S754_finite false (m + 1) e) t = true.
Proof.
intros V N L.
destruct (nonneg_cases t N) as [[s ->]|[(m' & e' & ->)| ->]];
  try discriminate; try reflexivity.
rewrite <- Bool.not_true_iff_false, leb_finite in L.
apply leb_finite. lia.
Qed.

Lemma time_limit_spec t :
  B64.valid t = true -> nonneg t = true ->
  B64.is_finite (B64.mul t c1000) = true <-> B64.leb t time_limit = true.
Proof.
intros V N. destruct (steps_float t N) as [Nx Vx]. split.
- intros F. destruct (B64.leb t time_limit) eqn:L; [reflexivity|].
  apply (leb_total_succ t _ _ V N) in L.
  assert (Lx : B64.leb (B64.mul (S754_finite false (4611686018427387 + 1) 962)
                          c1000) (B64.mul t c1000) = true)
    by (apply mul_mono_l; auto).
  change (B64.mul (S754_finite false (4611686018427387 + 1) 962) c1000)
    with (S754_infinity false) in Lx.
  destruct (B64.mul t c1000) as [s|[|]| |s m e]; discriminate.
- intros L.
  assert (Lx : B64.leb (B64.mul t c1000) (B64.mul time_limit c1000) = true)
    by (apply mul_mono_l; auto).
  eapply leb_finite_l; [exact Nx|exact Lx|reflexivity].
Qed.

(** X1: for a problem size [n > 0] and a time [t >= 0], [general_method]
    returns a value exactly when [n < 2^1024 - 2^970] and
    [t <= 1.7976931348623156e+305]. *)
Theorem general_method_domain n t :
  0 < n -> B64.valid t = true -> B64.leb B64.zero t = true ->
  (exists v, general_method (PyInt n) (PyFloat t) = Ok v)
  <-> n < size_limit /\ B64.leb t time_limit = true.
Proof.
intros Hn V N. split.
- intros [v H]. apply general_method_ok in H; [|assumption].
  destruct H as (Fx & Fn & _ & _). split.
  + destruct (Z_lt_ge_dec n size_limit) as [|G]; [assumption|].
    rewrite (of_Z_infinite n) in Fn by lia. discriminate.
  + apply time_limit_spec; assumption.
- intros [Hb L]. exists (quality n t).
  apply general_method_returns; auto.
  + apply of_Z_finite_bound. unfold size_limit in Hb. lia.
  + apply time_limit_spec; assumption.
Qed.

Lemma general_method_domain_witness :
  (exists v, general_method (PyInt 5000) (PyFloat (B64.lit 1 1)) = Ok v)
  <-> 5000 < size_limit /\ B64.leb (B64.lit 1 1) time_limit = true.
Proof.
apply (general_method_domain 5000 (B64.lit 1 1)).
- reflexivity.
- vm_compute. reflexivity.
- vm_compute. reflexivity.
Defined.

(** X2: when the product [t * 1000] is not finite, [general_method] fails
    in [int(...)], whatever the problem size, zero included: with
    [ValueError] for a NaN, with [OverflowError] for an infinity. *)
Theorem general_method_time_error n t :
  B64.is_finite (B64.mul t (B64.of_Z 1000)) = false ->
  general_method (PyInt n) (PyFloat t)
  = match B64.mul t (B64.of_Z 1000) with
    | S754_nan => Raise ValueError
    | _ => Raise OverflowError
    end.
Proof.
intros F. rewrite general_method_unfold.
change (B64.of_Z 1000) with c1000 in *.
destruct (B64.mul t c1000) as [s|s| |s m e]; try discriminate; reflexivity.
Qed.

Lemma general_method_time_error_witness :
  general_method (PyInt 0) (PyFloat (B64.of_Z (10 ^ 306)))
  = match B64.mul (B64.of_Z (10 ^ 306)) (B64.of_Z 1000) with
    | S754_nan => Raise ValueError
    | _ => Raise OverflowError
    end.
Proof.
apply (general_method_time_error 0 (B64.of_Z (10 ^ 306))).
vm_compute. reflexivity.
Defined.

(** X3: a problem size of [2^1024 - 2^970] or more does not convert to a
    float: when the product [t * 1000] is finite, the division
    [1.0 / problem_size] raises [OverflowError]. *)
Theorem general_method_size_error n t :
  size_limit <= n ->
  B64.is_finite (B64.mul t (B64.of_Z 1000)) = true ->
  general_method (PyInt n) (PyFloat t) = Raise OverflowError.
Proof.
intros Hn F. rewrite general_method_unfold.
change (B64.of_Z 1000) with c1000 in F.
assert (S : py_int (PyFloat (B64.mul t c1000))
            = Ok (B64.trunc (B64.mul t c1000)))
  by (apply py_int_ok; auto).
rewrite S. cbn [bind].
unfold int_to_float at 1. rewrite (of_Z_infinite n Hn). reflexivity.
Qed.

Lemma general_method_size_error_witness :
  general_method (PyInt (2 ^ 1024)) (PyFloat (B64.lit 1 1))
  = Raise OverflowError.
Proof.
apply (general_method_size_error (2 ^ 1024) (B64.lit 1 1)).
- vm_compute. discriminate.
- vm_compute. reflexivity.
Defined.

End Domain.

(** ** The smallest time that earns a positive quality *)

Section Positive.

Import Round Edge.

Lemma of_Z_le_max n : 0 < n -> B64.is_finite (B64.of_Z n) = true ->
  exists m e, B64.of_Z n = S754_finite false m e
              /\ B64.valid (S754_finite false m e) = true
              /\ digits m = 53
              /\ B64.leb (S754_finite false m e) max_float = true.
Proof.
intros Hn F. destruct (of_Z_pos_finite n Hn F) as (m & e & E & V & D).
exists m, e. repeat split; auto.
pose proof (valid_bounds _ _ _ V) as (B1 & B2 & _).
apply leb_finite. change (Z.pos 9007199254740991) with (2 ^ 53 - 1). lia.
Qed.

(** One step or more gives a product of at least [2^-1024]. *)
Lemma product_positive n t :
  0 < n -> B64.is_finite (B64.of_Z n) = true ->
  nonneg t = true -> 1 <= B64.trunc (B64.mul t c1000) ->
  B64.leb (S754_finite false 1125899906842624 (-1074))
    (B64.mul (B64.of_Z (B64.trunc (B64.mul t c1000)))
             (B64.div B64.one (B64.of_Z n))) = true.
Proof.
intros Hn Fn N S.
destruct (of_Z_le_max n Hn Fn) as (my & ey & E & Vy & Dy & Ly).
rewrite E.
destruct (div_one_props my ey Vy Dy) as (Ni & Vi & mi & ei & Q).
assert (La : B64.leb (B64.div B64.one max_float)
               (B64.div B64.one (S754_finite false my ey)) = true)
  by (apply div_one_anti; auto).
change (B64.div B64.one max_float)
  with (S754_finite false 1125899906842624 (-1074)) in La.
destruct (of_Z_props (B64.trunc (B64.mul t c1000)) ltac:(lia))
  as (Nf & Vf & Ff).
assert (L1 : B64.leb B64.one (B64.of_Z (B64.trunc (B64.mul t c1000))) = true).
{ change B64.one with (B64.of_Z 1). apply of_Z_mono. lia. }
rewrite Q in *.
eapply leb_trans; [reflexivity| |apply mul_mono_l; try exact L1; auto].
- rewrite (mul_comm B64.one).
  change (S754_finite false 1125899906842624 (-1074))
    with (B64.mul (S754_finite false 1125899906842624 (-1074)) B64.one).
  apply mul_mono_l; auto.
- right. split; [reflexivity|exact Ff].
Qed.

(** X4: the quality returned for [n > 0] and [t >= 0] is positive exactly
    when [t >= 0.001], that is, when there is at least one whole step. *)
Theorem general_method_positive n t v :
  0 < n -> B64.valid t = true -> B64.leb B64.zero t = true ->
  general_method (PyInt n) (PyFloat t) = Ok v ->
  B64.ltb B64.zero v = true <-> B64.leb (B64.lit 1 3) t = true.
Proof.
intros Hn V N H. apply general_method_ok in H; [|assumption].
destruct H as (Fx & Fn & _ & ->).
destruct (steps_float t N) as [Nx Vx].
destruct (B64.ltb t (B64.lit 1 3)) eqn:Lt.
- (* below one millisecond: no step, quality zero *)
  destruct (total_steps_small t V N Lt) as [_ S0].
  destruct (per_step_props n Hn Fn) as (m & e & E & _).
  assert (Q : quality n t = B64.zero).
  { rewrite quality_unfold, S0. unfold improvement_per_step.
    rewrite lit_one, E. reflexivity. }
  rewrite Q. split; [discriminate|].
  intros L. exfalso.
  change (B64.lit 1 3) with (S754_finite false 4611686018427388 (-62)) in *.
  destruct (nonneg_cases t N) as [[s ->]|[(m' & e' & ->)| ->]];
    try discriminate.
  apply ltb_finite in Lt. apply leb_finite in L. lia.
- assert (L : B64.leb (B64.lit 1 3) t = true).
  { change (B64.lit 1 3) with (S754_finite false 4611686018427388 (-62)) in *.
    destruct (nonneg_cases t N) as [[s ->]|[(m' & e' & ->)| ->]];
      try discriminate; try reflexivity.
    rewrite <- Bool.not_true_iff_false, ltb_finite in Lt.
    apply leb_finite. lia. }
  split; [intros _; exact L|intros _].
  assert (Lx : B64.leb (B64.mul (B64.lit 1 3) c1000) (B64.mul t c1000) = true)
    by (apply mul_mono_l; auto; vm_compute; reflexivity).
  assert (S : B64.trunc (B64.mul (B64.lit 1 3) c1000)
              <= B64.trunc (B64.mul t c1000))
    by (apply trunc_mono; auto; vm_compute; reflexivity).
  change (B64.trunc (B64.mul (B64.lit 1 3) c1000)) with 1 in S.
  pose proof (product_positive n t Hn Fn N S) as P.
  unfold quality, py_min.
  set (q := B64.mul (B64.of_Z (B64.trunc (B64.mul t c1000)))
              (B64.div B64.one (B64.of_Z n))) in *.
  destruct (B64.ltb B64.one q); [reflexivity|].
  destruct q as [s|[|]| |[|] m e]; try discriminate; reflexivity.
Qed.

Lemma general_method_positive_witness :
  B64.ltb B64.zero (B64.lit 2 2) = true
  <-> B64.leb (B64.lit 1 3) (B64.lit 1 1) = true.
Proof.
apply (general_method_positive 5000 (B64.lit 1 1) (B64.lit 2 2)).
- reflexivity.
- vm_compute. reflexivity.
- vm_compute. reflexivity.
- vm_compute. reflexivity.
Defined.

End Positive.

(** ** Negative times *)

Section Signs.

Import Round Edge.

Lemma sign_cases t :
  t = S754_nan \/ nonneg t = true \/ (nonpos t = true /\ nonneg (SFopp t) = true).
Proof.
destruct t as [[|]|[|]| |[|] m e]; auto.
Qed.

(** The negation of a non-negative float is below [0.0] and [1.0], and
    passes the clamp unchanged. *)
Lemma py_min_opp q : nonneg q = true ->
  py_min (SFopp q) B64.one = SFopp q
  /\ B64.leb (SFopp q) B64.zero = true
  /\ B64.leb (SFopp q) B64.one = true.
Proof.
intros N. destruct (nonneg_cases q N) as [[s ->]|[(m & e & ->)| ->]];
  repeat split; reflexivity.
Qed.

(** The value computed for the negation of a time with at least one whole
    step. *)
Lemma quality_opp n t :
  0 < n -> B64.is_finite (B64.of_Z n) = true -> nonneg t = true ->
  1 <= B64.trunc (B64.mul t c1000) ->
  quality n (SFopp t)
  = SFopp (B64.mul (B64.of_Z (B64.trunc (B64.mul t c1000)))
                   (B64.div B64.one (B64.of_Z n))).
Proof.
intros Hn Fn N S.
destruct (product_props n t Hn N Fn) as [Nq _].
destruct (per_step_props n Hn Fn) as (mi & ei & E & _).
unfold quality. unfold c1000 at 1. rewrite mul_opp_l. fold c1000.
rewrite trunc_opp, of_Z_opp by lia.
rewrite E in *. rewrite mul_opp_l.
apply py_min_opp. exact Nq.
Qed.

Lemma quality_opp_zero n t :
  0 < n -> B64.is_finite (B64.of_Z n) = true ->
  B64.trunc (B64.mul t c1000) = 0 ->
  quality n (SFopp t) = B64.zero.
Proof.
intros Hn Fn S.
destruct (per_step_props n Hn Fn) as (mi & ei & E & _).
unfold quality. unfold c1000 at 1. rewrite mul_opp_l. fold c1000.
rewrite trunc_opp, S, E. reflexivity.
Qed.

(** X5: whatever the time, negative ones included, a value returned for a
    problem size [n > 0] is at most 1.0; and for a time [t <= 0] it is at
    most 0.0: the quality is clamped from above only. *)
Theorem general_method_upper_clamp n t v :
  0 < n ->
  general_method (PyInt n) (PyFloat t) = Ok v ->
  B64.leb v (B64.lit 10 1) = true
  /\ (B64.leb t B64.zero = true -> B64.leb v B64.zero = true).
Proof.
intros Hn H. apply general_method_ok in H; [|assumption].
destruct H as (Fx & Fn & _ & ->). rewrite lit_one.
destruct (sign_cases t) as [->|[N|[P N]]].
- discriminate.
- split.
  + apply py_min_range, product_props; auto.
  + intros L.
    (* a time both >= 0 and <= 0 is a zero *)
    assert (Z0 : exists s, t = S754_zero s).
    { destruct (nonneg_cases t N) as [[s ->]|[(m & e & ->)| ->]];
        try discriminate; eauto. }
    destruct Z0 as [s ->].
    destruct (per_step_props n Hn Fn) as (mi & ei & E & _).
    unfold quality. rewrite E. destruct s; reflexivity.
- assert (Et : t = SFopp (SFopp t)) by (now rewrite opp_opp).
  set (t' := SFopp t) in *. rewrite Et. clearbody t'.
  assert (S : 0 <= B64.trunc (B64.mul t' c1000)) by (apply steps_props, N).
  destruct (Z.eq_dec (B64.trunc (B64.mul t' c1000)) 0) as [S0|S1].
  + rewrite quality_opp_zero by auto. split; reflexivity.
  + rewrite quality_opp by (auto; lia).
    destruct (product_props n t' Hn N Fn) as [Nq _].
    destruct (py_min_opp _ Nq) as (_ & L0 & L1). auto.
Qed.

Lemma general_method_upper_clamp_witness :
  B64.leb (SFopp (B64.lit 2 1)) (B64.lit 10 1) = true
  /\ (B64.leb (SFopp (B64.lit 10 1)) B64.zero = true ->
      B64.leb (SFopp (B64.lit 2 1)) B64.zero = true).
Proof.
apply (general_method_upper_clamp 5000 (SFopp (B64.lit 10 1))
         (SFopp (B64.lit 2 1))).
- reflexivity.
- vm_compute. reflexivity.
Defined.

(** X6: negating a time [t >= 0] that has at least one whole step negates
    the product and escapes the clamp: [general_method(n, -t)] returns
    [-(int(t * 1000) * (1.0 / n))], however far below -1.0 that is. *)
Theorem general_method_negative_time n t v :
  0 < n -> B64.leb B64.zero t = true ->
  general_method (PyInt n) (PyFloat t) = Ok v ->
  1 <= total_steps t ->
  general_method (PyInt n) (PyFloat (SFopp t))
  = Ok (SFopp (B64.mul (B64.of_Z (total_steps t)) (improvement_per_step n))).
Proof.
intros Hn N H S. apply general_method_ok in H; [|assumption].
destruct H as (Fx & Fn & Fs & _).
change (total_steps t) with (B64.trunc (B64.mul t c1000)) in *.
unfold improvement_per_step. rewrite lit_one.
rewrite <- quality_opp by auto.
apply general_method_ok; [assumption|].
unfold c1000 at 1 2. rewrite !mul_opp_l. fold c1000.
rewrite is_finite_opp, trunc_opp, of_Z_opp, is_finite_opp by lia.
repeat split; auto.
Qed.

Lemma general_method_negative_time_witness :
  general_method (PyInt 1) (PyFloat (SFopp (B64.lit 50 1)))
  = Ok (SFopp (B64.mul (B64.of_Z (total_steps (B64.lit 50 1)))
                       (improvement_per_step 1))).
Proof.
apply (general_method_negative_time 1 (B64.lit 50 1) (B64.lit 10 1)).
- reflexivity.
- vm_compute. reflexivity.
- vm_compute. reflexivity.
- vm_compute. discriminate.
Defined.

End Signs.

(** ** Problem sizes given as floats *)

Section FloatSize.

Import Round Edge.

(** X7: with a float as problem size, and a time [t >= 0] whose product
    [t * 1000] is finite: a zero of either sign raises
    [ZeroDivisionError]; a NaN is returned as a NaN, which the clamp lets
    through; the positive infinity gives the quality 0.0. *)
Theorem general_method_float_size t :
  B64.leb B64.zero t = true ->
  B64.is_finite (B64.mul t (B64.of_Z 1000)) = true ->
  (forall s, general_method (PyFloat (S754_zero s)) (PyFloat t)
             = Raise ZeroDivisionError)
  /\ general_method (PyFloat S754_nan) (PyFloat t) = Ok S754_nan
  /\ general_method (PyFloat (S754_infinity false)) (PyFloat t) = Ok B64.zero.
Proof.
intros N F. change (B64.of_Z 1000) with c1000 in F.
destruct (steps_float t N) as [Nx Vx].
pose proof (of_Z_trunc_finite _ Nx Vx F) as Fs.
pose proof (trunc_nonneg _ Nx) as S0.
assert (S : py_int (PyFloat (B64.mul t c1000))
            = Ok (B64.trunc (B64.mul t c1000)))
  by (apply py_int_ok; auto).
assert (J : int_to_float (B64.trunc (B64.mul t c1000))
            = Ok (B64.of_Z (B64.trunc (B64.mul t c1000))))
  by (apply int_to_float_ok; auto).
unfold general_method, py_mul_int, py_truediv, py_int_mul_float.
rewrite int_to_float_1000, lit_one. cbn [bind]. rewrite S. cbn [bind].
repeat split.
- rewrite J. cbn [bind].
  destruct (B64.of_Z _) as [?|?| |? ? ?]; reflexivity.
- rewrite J. cbn [bind]. f_equal.
  destruct (B64.trunc (B64.mul t c1000)) as [|p|p] eqn:T; [reflexivity| |lia].
  destruct (of_Z_pos_finite (Z.pos p) ltac:(lia) Fs) as (m & e & -> & _).
  reflexivity.
Qed.

Lemma general_method_float_size_witness :
  (forall s, general_method (PyFloat (S754_zero s)) (PyFloat (B64.lit 1 1))
             = Raise ZeroDivisionError)
  /\ general_method (PyFloat S754_nan) (PyFloat (B64.lit 1 1)) = Ok S754_nan
  /\ general_method (PyFloat (S754_infinity false)) (PyFloat (B64.lit 1 1))
     = Ok B64.zero.
Proof.
apply (general_method_float_size (B64.lit 1 1)).
- vm_compute. reflexivity.
- vm_compute. reflexivity.
Defined.

End FloatSize.

(** ** Times given as integers *)

Section IntTime.

Import Round Edge.

(** An integer below [2^53] converts exactly. *)
Lemma of_Z_small p : digits p <= 53 ->
  exists mz,
    B64.of_Z (Z.pos p) = S754_finite false mz (digits p - 53)
    /\ Z.pos mz = Z.pos p * 2 ^ (53 - digits p)
    /\ digits mz = 53.
Proof.
intros D. pose proof (digits_pos p) as D1.
destruct (of_Z_pos p) as (mz & ez & E & He & Hm & Hd).
assert (Ez : ez = digits p - 53) by (unfold fexp, emin in He; lia).
clear He. subst ez. exists mz.
replace (- (digits p - 53)) with (53 - digits p) in Hm by lia.
assert (Dm : digits mz = 53) by lia.
repeat split; auto.
rewrite E, bra_exact; rewrite Hd;
  replace (fexp (digits p)) with (digits p - 53)
    by (unfold fexp, emin; lia); [|lia].
rewrite Z.sub_diag, rne_0.
pose proof (digits_bounds mz) as [_ U]. rewrite Dm in U.
unfold pack. change (Z.pos mz =? 0) with false. cbv iota.
destruct (Z.eqb_spec (Z.pos mz) (2 ^ 53)); [lia|].
destruct (Z.leb_spec (digits p - 53) 971); [reflexivity|lia].
Qed.

Lemma trunc_of_Z_small z : 0 <= z < 2 ^ 53 -> B64.trunc (B64.of_Z z) = z.
Proof.
intros [Hz Hb]. destruct z as [|p|p]; [reflexivity| |lia].
assert (D : digits p <= 53).
{ pose proof (digits_bounds p) as [L _].
  destruct (Z_le_gt_dec (digits p) 53); auto.
  assert (2 ^ 53 <= 2 ^ (digits p - 1)) by (apply Z.pow_le_mono_r; lia).
  lia. }
destruct (of_Z_small p D) as (mz & -> & Hm & _).
cbn [B64.trunc]. rewrite Hm.
destruct (Z.leb_spec 0 (digits p - 53)).
- replace (53 - digits p) with 0 by lia.
  replace (digits p - 53) with 0 by lia. lia.
- replace (- (digits p - 53)) with (53 - digits p) by lia.
  apply Z.div_mul. apply Z.pow_nonzero; lia.
Qed.

(** The product of a small integer and 1000.0 is exact. *)
Lemma mul_1000_exact p : Z.pos p * 1000 < 2 ^ 53 ->
  B64.mul (B64.of_Z (Z.pos p)) c1000 = B64.of_Z (Z.pos p * 1000).
Proof.
intros Hb.
assert (Dq : digits (p * 1000) <= 53).
{ pose proof (digits_bounds (p * 1000)) as [L _].
  rewrite Pos2Z.inj_mul in L.
  destruct (Z_le_gt_dec (digits (p * 1000)) 53); auto.
  assert (2 ^ 53 <= 2 ^ (digits (p * 1000) - 1))
    by (apply Z.pow_le_mono_r; lia).
  lia. }
assert (DD : digits p <= digits (p * 1000)).
{ pose proof (dyle_digits p 0 (p * 1000) 0) as H. unfold dyle in H.
  rewrite Z.sub_diag, Z.pow_0_r, Pos2Z.inj_mul in H. lia. }
assert (Dp : digits p <= 53) by lia.
pose proof (digits_pos p) as P1. pose proof (digits_pos (p * 1000)) as Q1.
destruct (of_Z_small p Dp) as (mz & -> & Hm & Dm).
change (Z.pos p * 1000) with (Z.pos (p * 1000)).
destruct (of_Z_small (p * 1000) Dq) as (mq & -> & Hq & Dmq).
unfold c1000. rewrite mul_finite.
set (d := digits p) in *. set (D := digits (p * 1000)) in *.
assert (Pm : Z.pos (mz * 8796093022208000)
             = Z.pos (p * 1000) * 2 ^ (96 - d)).
{ rewrite !Pos2Z.inj_mul, Hm.
  change (Z.pos 8796093022208000) with (1000 * 2 ^ 43).
  replace (96 - d) with (53 - d + 43) by lia.
  rewrite Z.pow_add_r by lia. change (Z.pos 1000) with 1000. ring. }
assert (Dg : digits (mz * 8796093022208000) = D + (96 - d))
  by (apply (digits_shift (p * 1000)); [lia|exact Pm]).
rewrite bra_exact; rewrite Dg;
  replace (D + (96 - d) + (d - 53 + -43)) with D by lia;
  replace (fexp D) with (D - 53) by (unfold fexp, emin; lia); [|lia].
replace (D - 53 - (d - 53 + -43)) with (D + 43 - d) by lia.
assert (R : rne (Z.pos (mz * 8796093022208000)) (D + 43 - d) = Z.pos mq).
{ unfold rne. rewrite Pm, Hq.
  replace (96 - d) with (53 - D + (D + 43 - d)) by lia.
  rewrite Z.pow_add_r, Z.mul_assoc by lia.
  apply dne_exact. apply Z.pow_pos_nonneg; lia. }
rewrite R.
pose proof (digits_bounds mq) as [_ U]. rewrite Dmq in U.
unfold pack. change (Z.pos mq =? 0) with false. cbv iota.
destruct (Z.eqb_spec (Z.pos mq) (2 ^ 53)); [lia|].
destruct (Z.leb_spec (D - 53) 971); [reflexivity|lia].
Qed.

(** X8: a time given as an integer number of seconds [t >= 0] with
    [1000 * t < 2^53] gives what the same time gives as a float, value or
    error, for every problem size. *)
Theorem general_method_int_time n t :
  0 <= t -> t * 1000 < 2 ^ 53 ->
  general_method (PyInt n) (PyInt t)
  = general_method (PyInt n) (PyFloat (B64.of_Z t)).
Proof.
intros Ht Hb. rewrite general_method_unfold.
assert (S : py_int (PyFloat (B64.mul (B64.of_Z t) c1000)) = Ok (t * 1000)).
{ destruct t as [|p|p]; [reflexivity| |lia].
  rewrite mul_1000_exact by assumption.
  apply py_int_ok. split.
  - apply of_Z_finite_bound. split; [lia|].
    eapply Z.lt_trans; [exact Hb|]. vm_compute. reflexivity.
  - symmetry. apply trunc_of_Z_small. lia. }
rewrite S.
unfold general_method, py_mul_int, py_truediv, py_int_mul_float.
rewrite lit_one. cbn [bind py_int].
destruct (int_to_float n) as [f|]; cbn [bind]; [|reflexivity].
destruct f; cbn [bind]; try reflexivity;
  destruct (int_to_float (t * 1000)); reflexivity.
Qed.

Lemma general_method_int_time_witness :
  general_method (PyInt 5000) (PyInt 2)
  = general_method (PyInt 5000) (PyFloat (B64.of_Z 2)).
Proof.
apply (general_method_int_time 5000 2).
- discriminate.
- reflexivity.
Defined.

End IntTime.

(** ** One step more than the problem size *)

Section OneMoreStep.

Import Round Edge.

Lemma dne_lower a b : 0 < b ->
  2 * a - b <= 2 * (b * Fmt.div_nearest_even a b).
Proof.
intros Hb. unfold Fmt.div_nearest_even.
pose proof (Z.div_mod a b ltac:(lia)) as DM.
pose proof (Z.mod_pos_bound a b Hb) as MB.
destruct (Z.compare_spec (2 * (a mod b)) b); try destruct (Z.even (a / b));
  nia.
Qed.

(** A power of two with the opposite exponent rounds to 1.0. *)
Lemma bra_one k : 52 <= k ->
  binary_round_aux B64.prec B64.emax false (Z.pos (Z.to_pos (2 ^ k))) (- k)
    loc_Exact = B64.one.
Proof.
intros Hk.
assert (P : 0 < 2 ^ k) by (apply Z.pow_pos_nonneg; lia).
assert (D : digits (Z.to_pos (2 ^ k)) = k + 1).
{ apply digits_unique. rewrite Z2Pos.id by lia.
  replace (k + 1 - 1) with k by lia. split; [lia|].
  apply Z.pow_lt_mono_r; lia. }
rewrite bra_exact; rewrite D;
  replace (k + 1 + - k) with 1 by lia; change (fexp 1) with (-52); [|lia].
rewrite Z2Pos.id by lia.
replace (rne (2 ^ k) (-52 - - k)) with (2 ^ 52); [reflexivity|].
unfold rne. replace (2 ^ k) with (2 ^ 52 * 2 ^ (-52 - - k)) at 1.
- symmetry. apply dne_exact. apply Z.pow_pos_nonneg; lia.
- rewrite <- Z.pow_add_r by lia. f_equal. lia.
Qed.

Lemma digits_le_53 p : Z.pos p < 2 ^ 53 -> digits p <= 53.
Proof.
intros H. pose proof (digits_bounds p) as [L _].
destruct (Z_le_gt_dec (digits p) 53); auto.
assert (2 ^ 53 <= 2 ^ (digits p - 1)) by (apply Z.pow_le_mono_r; lia).
lia.
Qed.

(** For a problem size below [2^53], one step more than the size brings
    the product to 1.0 or more. *)
Lemma succ_steps_product p : Z.pos p + 1 < 2 ^ 53 ->
  B64.leb B64.one
    (B64.mul (B64.of_Z (Z.pos p + 1)) (B64.div B64.one (B64.of_Z (Z.pos p))))
  = true.
Proof.
intros Hb.
pose proof (digits_le_53 p ltac:(lia)) as Dp.
pose proof (digits_le_53 (p + 1) ltac:(rewrite Pos2Z.inj_add; lia)) as Dq.
pose proof (digits_pos p) as P1. pose proof (digits_pos (p + 1)) as Q1.
pose proof (digits_bounds p) as [Lp _].
destruct (of_Z_props (Z.pos p) ltac:(lia)) as (_ & Vy & _).
destruct (of_Z_small p Dp) as (my & Ey & Hy & Dy).
change (Z.pos p + 1) with (Z.pos (p + 1)).
destruct (of_Z_small (p + 1) Dq) as (mf & Ef & Hf & Df).
rewrite Ey in *. rewrite Ef.
set (d := digits p) in *. set (d' := digits (p + 1)) in *.
rewrite div_one by assumption.
assert (Sh : recip_shift (d - 53) = 53) by (unfold recip_shift; lia).
assert (Ex : recip_exp (d - 53) = - 52 - d)
  by (unfold recip_exp, emin; lia).
pose proof (recip_mant_bounds my (d - 53) Dy ltac:(lia)) as [ML MU].
rewrite Sh in ML, MU. change (53 - 1) with 52 in ML.
pose proof (dne_lower (2 ^ (52 + 53)) (Z.pos my) ltac:(lia)) as DL.
unfold recip_mant in *. rewrite Sh, Ex in *.
set (M := Fmt.div_nearest_even (2 ^ (52 + 53)) (Z.pos my)) in *.
assert (Pc : 0 < 2 ^ (53 - d)) by (apply Z.pow_pos_nonneg; lia).
assert (Pc' : 0 < 2 ^ (53 - d')) by (apply Z.pow_pos_nonneg; lia).
rewrite Pos2Z.inj_add in Hf. change (Z.pos 1) with 1 in Hf.
unfold pack.
destruct (Z.eqb_spec M 0) as [|_]; [lia|].
destruct (Z.eqb_spec M (2 ^ 53)) as [M53|M53].
- (* the size is a power of two: the reciprocal is exact *)
  destruct (Z.leb_spec (-52 - d + 1) 971); [|lia].
  rewrite mul_finite, <- (bra_one (- (d' - 53 + (-52 - d + 1)))) by lia.
  apply bra_mono.
  + split; [lia|].
    replace (d' - 53 + (-52 - d + 1) - - - (d' - 53 + (-52 - d + 1)))
      with 0 by lia.
    rewrite Z.pow_0_r, Z.mul_1_r, Z2Pos.id
      by (apply Z.pow_pos_nonneg; lia).
    rewrite Pos2Z.inj_mul, Hf.
    change (Z.pos (Z.to_pos (2 ^ 52))) with (2 ^ 52).
    replace (- (d' - 53 + (-52 - d + 1))) with (d - 1 + (53 - d') + 52)
      by lia.
    rewrite !Z.pow_add_r by lia.
    assert (0 < 2 ^ (d - 1)) by (apply Z.pow_pos_nonneg; lia).
    assert (2 ^ (d - 1) * 2 ^ (53 - d') <= (Z.pos p + 1) * 2 ^ (53 - d'))
      by (apply Z.mul_le_mono_nonneg_r; lia).
    apply Z.mul_le_mono_nonneg_r; [vm_compute; discriminate|assumption].
  + match goal with |- _ <= fexp (digits ?m + _) =>
      assert (Dm : digits m = - (d' - 53 + (-52 - d + 1)) + 1) end.
    { apply digits_unique. rewrite Z2Pos.id by (apply Z.pow_pos_nonneg; lia).
      replace (- (d' - 53 + (-52 - d + 1)) + 1 - 1)
        with (- (d' - 53 + (-52 - d + 1))) by lia.
      split; [lia|]. apply Z.pow_lt_mono_r; lia. }
    rewrite Dm. unfold fexp, emin. lia.
  + apply mul_pre. auto.
- destruct (Z.leb_spec (-52 - d) 971); [|lia].
  rewrite mul_finite, <- (bra_one (- (d' - 53 + (-52 - d)))) by lia.
  apply bra_mono.
  + split; [lia|].
    replace (d' - 53 + (-52 - d) - - - (d' - 53 + (-52 - d))) with 0 by lia.
    rewrite Z.pow_0_r, Z.mul_1_r, Z2Pos.id
      by (apply Z.pow_pos_nonneg; lia).
    rewrite Pos2Z.inj_mul, Hf, Z2Pos.id by lia.
    (* (p + 1) * M * 2^(53 - d) >= 2^105 *)
    assert (K : 2 ^ 105 <= (Z.pos p + 1) * M * 2 ^ (53 - d)).
    { change (2 ^ (52 + 53)) with (2 ^ 105) in DL. rewrite Hy in DL.
      assert (Z.pos p * 2 ^ (53 - d) <= 2 * (M * 2 ^ (53 - d)))
        by nia.
      nia. }
    assert (E2 : 2 ^ (- (d' - 53 + (-52 - d))) * 2 ^ (53 - d)
                 = 2 ^ 105 * 2 ^ (53 - d')).
    { rewrite <- !Z.pow_add_r by lia. f_equal. lia. }
    apply (Z.mul_le_mono_pos_r _ _ (2 ^ (53 - d))); [assumption|].
    rewrite E2.
    replace ((Z.pos p + 1) * 2 ^ (53 - d') * M * 2 ^ (53 - d))
      with ((Z.pos p + 1) * M * 2 ^ (53 - d) * 2 ^ (53 - d')) by ring.
    apply Z.mul_le_mono_nonneg_r; lia.
  + match goal with |- _ <= fexp (digits ?m + _) =>
      assert (Dm : digits m = - (d' - 53 + (-52 - d)) + 1) end.
    { apply digits_unique. rewrite Z2Pos.id by (apply Z.pow_pos_nonneg; lia).
      replace (- (d' - 53 + (-52 - d)) + 1 - 1)
        with (- (d' - 53 + (-52 - d))) by lia.
      split; [lia|]. apply Z.pow_lt_mono_r; lia. }
    rewrite Dm. unfold fexp, emin. lia.
  + apply mul_pre. auto.
Qed.

(** X9: for every problem size [0 < n < 2^53] and time [t >= 0] with more
    whole steps than the problem size, [floor(t * 1000) > n], a returning
    [general_method] returns exactly 1.0. *)
Theorem general_method_one_more_step n t v :
  0 < n < 2 ^ 53 -> B64.leb B64.zero t = true ->
  general_method (PyInt n) (PyFloat t) = Ok v ->
  n < B64.floor (B64.mul t (B64.of_Z 1000)) ->
  v = B64.lit 10 1.
Proof.
intros [Hn Hb] N H Hs. apply general_method_ok in H; [|assumption].
destruct H as (F & Fn & Fs & ->). rewrite lit_one.
destruct (steps_float t N) as [Nx Vx].
rewrite floor_trunc in Hs by exact Nx.
change (B64.of_Z 1000) with c1000 in Hs.
assert (L1 : B64.leb B64.one
               (B64.mul (B64.of_Z (n + 1)) (B64.div B64.one (B64.of_Z n)))
             = true).
{ destruct n as [|p|p]; try lia.
  destruct (Z_lt_ge_dec (Z.pos p + 1) (2 ^ 53)) as [S|S].
  - apply succ_steps_product, S.
  - assert (E : Z.pos p = 2 ^ 53 - 1) by lia.
    rewrite E. vm_compute. reflexivity. }
destruct (per_step_props n Hn Fn) as (m & e & E & _).
destruct (of_Z_props (n + 1) ltac:(lia)) as (N1 & V1 & F1).
destruct (of_Z_props (B64.trunc (B64.mul t c1000)) ltac:(lia))
  as (N2 & V2 & F2).
unfold quality. apply py_min_sat.
- apply product_props; auto.
- eapply leb_trans; [reflexivity|exact L1|].
  rewrite E. apply mul_mono_l; auto.
  apply of_Z_mono. lia.
Qed.

Lemma general_method_one_more_step_witness :
  py_min (B64.mul (B64.of_Z (total_steps (B64.lit 5 2)))
                  (improvement_per_step 49)) (B64.lit 10 1)
  = B64.lit 10 1.
Proof.
apply (general_method_one_more_step 49 (B64.lit 5 2)).
- split; reflexivity.
- vm_compute. reflexivity.
- vm_compute. reflexivity.
- vm_compute. reflexivity.
Defined.

End OneMoreStep.
